(** * Tweet monitor bot ([main.py]): the monitoring engine

    A shallow embedding of the parts of [main.py] that poll a Twitter
    timeline, filter and de-duplicate the newest tweet, relay it to a
    Telegram chat, and start and stop such monitors from chat commands:

    - the scraper helpers [get_tweet_text], [get_tweet_id],
      [get_user_tweets];
    - the polling thread [monitor_tweets];
    - the global registry [monitor_flags] and the conversation handlers
      that write to it and answer the chat.

    A Python [str] is the sequence of its Unicode code points. Values
    that come out of [response.json()] are modelled as a type of JSON
    values with Python's subscript, truthiness and equality written out;
    Python exceptions are an explicit outcome of every step that can
    raise, the awaited Telegram calls of the handlers included. The
    Unicode tables of the Python runtime (case mapping, the word class of
    [re], white space) are a parameter of the development. *)

From Stdlib Require Import String Ascii ZArith NArith List Bool Lia Sorted.
From stdpp Require Import base gmap list fin_maps.

Open Scope Z_scope.
Open Scope string_scope.
Open Scope list_scope.

(** ** Python strings *)

(** A code point is a number below [0x110000]; nothing in the program
    depends on the bound. *)
Definition codepoint : Type := N.

Definition pystr : Type := list codepoint.

(** [ord(c)] for an ASCII character. *)
Definition ord (c : ascii) : codepoint := N_of_ascii c.

(** The string literals of the program are ASCII: such a literal is read
    as the sequence of the codes of its characters. *)
Definition of_string (s : string) : pystr := ord <$> list_ascii_of_string s.

Coercion of_string : string >-> pystr.

(** ** Python values and exceptions *)

(** The values [json.loads] produces. [JNull] is Python's [None]; an
    object is the decoded [dict], kept as an association list (a decoded
    dict has no two entries with one key; lookup takes the first).
    Numbers are the integers: no path of the program computes with a
    number, they are only tested for truth and compared. *)
#[local] Unset Elimination Schemes.
Inductive json : Type :=
| JNull
| JBool (b : bool)
| JNum (z : Z)
| JStr (s : pystr)
| JArr (l : list json)
| JObj (d : list (pystr * json)).
#[local] Set Elimination Schemes.

(** The exception classes the modelled code can meet. [RequestException]
    stands for the whole [requests.exceptions.RequestException] family
    (connection errors, timeouts, [HTTPError] from [raise_for_status]);
    [OtherError] is any other subclass of [Exception]. A [KeyError]
    carries the key that was not found, the others their message. *)
Inductive exn : Type :=
| KeyError (key : json)
| IndexError (what : pystr)
| TypeError (what : pystr)
| AttributeError (what : pystr)
| RequestException (what : pystr)
| OtherError (what : pystr).

Definition is_request_exception (e : exn) : bool :=
  match e with RequestException _ => true | _ => false end.

(** [except (KeyError, IndexError)] *)
Definition is_key_or_index_error (e : exn) : bool :=
  match e with KeyError _ | IndexError _ => true | _ => false end.

(** Result of evaluating a Python expression: a value or a raised
    exception. *)
Inductive res (A : Type) : Type :=
| Ok (a : A)
| Raise (e : exn).
Arguments Ok {A} a.
Arguments Raise {A} e.

Definition res_bind {A B : Type} (r : res A) (k : A -> res B) : res B :=
  match r with
  | Ok a => k a
  | Raise e => Raise e
  end.

(** [bool(v)] *)
Definition py_truthy (v : json) : bool :=
  match v with
  | JNull => false
  | JBool b => b
  | JNum z => negb (z =? 0)%Z
  | JStr s => match s with [] => false | _ => true end
  | JArr l => match l with [] => false | _ => true end
  | JObj d => match d with [] => false | _ => true end
  end.

Fixpoint assoc {A : Type} (k : pystr) (d : list (pystr * A)) : option A :=
  match d with
  | [] => None
  | (k', v) :: d' => if bool_decide (k = k') then Some v else assoc k d'
  end.

(** [a == b]. A [bool] is an [int] in Python, so [True == 1]; sequences
    compare element by element; dicts compare as maps. *)
Fixpoint py_eq (a b : json) {struct a} : bool :=
  match a, b with
  | JNull, JNull => true
  | JBool x, JBool y => Bool.eqb x y
  | JBool x, JNum n => (n =? (if x then 1 else 0))%Z
  | JNum n, JBool x => (n =? (if x then 1 else 0))%Z
  | JNum m, JNum n => (m =? n)%Z
  | JStr s, JStr t => bool_decide (s = t)
  | JArr l, JArr l' =>
      (fix all2 (l l' : list json) {struct l} : bool :=
         match l, l' with
         | [], [] => true
         | x :: xs, y :: ys => py_eq x y && all2 xs ys
         | _, _ => false
         end) l l'
  | JObj d, JObj d' =>
      (length d =? length d')%nat &&
      (fix sub (d : list (pystr * json)) {struct d} : bool :=
         match d with
         | [] => true
         | (k, v) :: r =>
             match assoc k d' with
             | Some v' => py_eq v v'
             | None => false
             end && sub r
         end) d
  | _, _ => false
  end.

(** [type(v).__name__] *)
Definition type_name (v : json) : pystr :=
  match v with
  | JNull => "NoneType"
  | JBool _ => "bool"
  | JNum _ => "int"
  | JStr _ => "str"
  | JArr _ => "list"
  | JObj _ => "dict"
  end.

Definition not_subscriptable (v : json) : exn :=
  TypeError (of_string "'" ++ type_name v
             ++ of_string "' object is not subscriptable").

(** [v[key]] for a string [key]. *)
Definition subscript_key (v : json) (key : pystr) : res json :=
  match v with
  | JObj d =>
      match assoc key d with
      | Some x => Ok x
      | None => Raise (KeyError (JStr key))
      end
  | JArr _ => Raise (TypeError "list indices must be integers or slices, not str")
  | JStr _ => Raise (TypeError "string indices must be integers, not 'str'")
  | JNull | JBool _ | JNum _ => Raise (not_subscriptable v)
  end.

(** [v[i]] for a non-negative integer literal [i]. A decoded object has
    string keys only, so an integer is never one of them; a string is
    indexed by code point. *)
Definition subscript_index (v : json) (i : nat) : res json :=
  match v with
  | JArr l =>
      match l !! i with
      | Some x => Ok x
      | None => Raise (IndexError "list index out of range")
      end
  | JStr s =>
      match s !! i with
      | Some c => Ok (JStr [c])
      | None => Raise (IndexError "string index out of range")
      end
  | JObj _ => Raise (KeyError (JNum (Z.of_nat i)))
  | JNull | JBool _ | JNum _ => Raise (not_subscriptable v)
  end.

(** One step of a subscript chain. *)
Inductive selector : Type :=
| Key (k : pystr)
| Idx (i : nat).

Definition subscript (v : json) (s : selector) : res json :=
  match s with
  | Key k => subscript_key v k
  | Idx i => subscript_index v i
  end.

(** [v[s1][s2]...[sn]], evaluated left to right; the first subscript that
    raises ends the evaluation. *)
Fixpoint subscripts (v : json) (path : list selector) : res json :=
  match path with
  | [] => Ok v
  | s :: path' => res_bind (subscript v s) (fun v' => subscripts v' path')
  end.

(** [try: return e  except (KeyError, IndexError): return None] *)
Definition try_key_index (r : res json) : res json :=
  match r with
  | Ok v => Ok v
  | Raise e => if is_key_or_index_error e then Ok JNull else Raise e
  end.

(** A method [attr] of [str] looked up on [v]: a string has it, any
    other value raises [AttributeError]. *)
Definition as_str (attr : pystr) (v : json) : res pystr :=
  match v with
  | JStr s => Ok s
  | _ => Raise (AttributeError
                  (of_string "'" ++ type_name v
                   ++ of_string "' object has no attribute '" ++ attr
                   ++ of_string "'"))
  end.

(** ** Tweet scraper functions *)

(** [tweet_data['result']['timeline']['instructions'][1]['entries'][0]
    ['content']['itemContent']['tweet_results']['result']['legacy']] *)
Definition legacy_path : list selector :=
  [Key "result"; Key "timeline"; Key "instructions"; Idx 1; Key "entries";
   Idx 0; Key "content"; Key "itemContent"; Key "tweet_results";
   Key "result"; Key "legacy"].

Definition get_tweet_text (tweet_data : json) : res json :=
  try_key_index (subscripts tweet_data (legacy_path ++ [Key "full_text"])).

Definition get_tweet_id (tweet_data : json) : res json :=
  try_key_index (subscripts tweet_data (legacy_path ++ [Key "id_str"])).

(** ** Text operations *)

(** *** The ASCII range

    On the code points below 128 the case mapping, the word class [\w]
    and the white space of [str.strip] are fixed. *)

Definition is_ascii (c : codepoint) : bool := (c <? 128)%N.

Definition is_upper (c : codepoint) : bool := ((65 <=? c) && (c <=? 90))%N.

Definition is_lower (c : codepoint) : bool := ((97 <=? c) && (c <=? 122))%N.

Definition is_digit (c : codepoint) : bool := ((48 <=? c) && (c <=? 57))%N.

(** Letters, digits and the underscore. *)
Definition ascii_word (c : codepoint) : bool :=
  is_upper c || is_lower c || is_digit c || (c =? ord "_")%N.

(** Space, tab, line feed, vertical tab, form feed, carriage return and
    the four separators 28..31. *)
Definition ascii_space (c : codepoint) : bool :=
  ((c =? 32) || ((9 <=? c) && (c <=? 13)) || ((28 <=? c) && (c <=? 31)))%N.

Definition ascii_lower (c : codepoint) : codepoint :=
  if is_upper c then (c + 32)%N else c.

(** *** The tables of the runtime

    What [str.lower], the class [\w] of a [str] pattern and
    [str.isspace] do with text that is not ASCII is decided by the
    Unicode database of the Python runtime that executes the program.
    These tables are a parameter: [unicode_lower s] is [s.lower()] for a
    string [s] with a character beyond ASCII (the mapping is not
    character by character: it can change the length of the string and
    depends on the neighbours of a character), [unicode_word c] and
    [unicode_space c] say whether a character [c] beyond ASCII is
    alphanumeric and whether it is white space. *)
Class Unicode : Type := {
  unicode_lower : pystr → pystr;
  unicode_word : codepoint → bool;
  unicode_space : codepoint → bool
}.

(** Tables that know no letter, digit or space beyond ASCII; the sample
    runs, whose texts are ASCII, are stated with them. *)
Definition ascii_tables : Unicode :=
  {| unicode_lower := λ s, s;
     unicode_word := λ _, false;
     unicode_space := λ _, false |}.

Section text_operations.
Context {U : Unicode}.

(** The class [\w]. *)
Definition is_word (c : codepoint) : bool :=
  if is_ascii c then ascii_word c else unicode_word c.

(** The characters [str.strip()] removes. *)
Definition is_space (c : codepoint) : bool :=
  if is_ascii c then ascii_space c else unicode_space c.

(** [s.lower()] *)
Definition lower (s : pystr) : pystr :=
  if forallb is_ascii s then ascii_lower <$> s else unicode_lower s.

(** [s.startswith(p)] *)
Definition startswith (s p : pystr) : bool := bool_decide (p `prefix_of` s).

(** [needle in hay] *)
Fixpoint contains (needle hay : pystr) : bool :=
  startswith hay needle ||
  match hay with
  | [] => false
  | _ :: r => contains needle r
  end.

(** [any(keyword.lower() in tweet_text.lower() for keyword in keywords)] *)
Definition any_keyword (keywords : list pystr) (tweet_text : pystr) : bool :=
  existsb (fun keyword => contains (lower keyword) (lower tweet_text)) keywords.

(** [re.findall(r"#\w+", s)]: the scan goes left to right; a match starts
    at a [#] that is followed by a word character, takes the longest run
    of word characters and the scan resumes behind it. [cur] is the match
    under construction ([#] and the word characters read so far), if the
    scan is inside one. *)
Definition flush_tag (cur : option pystr) : list pystr :=
  match cur with
  | Some w => if (1 <? length w)%nat then [w] else []
  | None => []
  end.

Definition open_tag (c : codepoint) : option pystr :=
  if (c =? ord "#")%N then Some [ord "#"] else None.

Fixpoint scan_tags (cur : option pystr) (s : pystr) : list pystr :=
  match s with
  | [] => flush_tag cur
  | c :: r =>
      match cur with
      | Some w =>
          if is_word c then scan_tags (Some (w ++ [c])) r
          else flush_tag cur ++ scan_tags (open_tag c) r
      | None => scan_tags (open_tag c) r
      end
  end.

Definition findall_hashtags (s : pystr) : list pystr := scan_tags None s.

(** [retweet_flag = tweet_text.startswith("RT ")] *)
Definition retweet_flag (tweet_text : pystr) : bool :=
  startswith tweet_text "RT ".

(** [sep.join(l)] *)
Fixpoint join (sep : pystr) (l : list pystr) : pystr :=
  match l with
  | [] => []
  | [x] => x
  | x :: r => x ++ sep ++ join sep r
  end.

(** [s.split(",")] for a one-character separator: always at least one
    field. *)
Fixpoint split_on (sep : codepoint) (s : pystr) : list pystr :=
  match s with
  | [] => [[]]
  | c :: r =>
      if (c =? sep)%N then [] :: split_on sep r
      else match split_on sep r with
           | h :: t => (c :: h) :: t
           | [] => [[c]]
           end
  end.

Fixpoint lstrip (s : pystr) : pystr :=
  match s with
  | [] => []
  | c :: r => if is_space c then lstrip r else s
  end.

Fixpoint rstrip (s : pystr) : pystr :=
  match s with
  | [] => []
  | c :: r =>
      match rstrip r with
      | [] => if is_space c then [] else [c]
      | r' => c :: r'
      end
  end.

(** [s.strip()] *)
Definition strip (s : pystr) : pystr := rstrip (lstrip s).
End text_operations.

(** ** The polling thread

    The thread's effects are recorded in a trace, in the order they
    happen; its local variable [latest_tweet_id] and the time on the wall
    clock are the state. What the outside world answers in one iteration
    of the loop (the HTTP responses, how long the calls take, the time
    [get_ist_time] reads) is the iteration's input. *)

(** The messages sent to Telegram, with the values their f-strings
    interpolate. *)
Inductive message : Type :=
| NewTweet (timestamp twitter_user_id : pystr) (tweet_id : json)
           (retweet_text hashtags_text tweet_text : pystr)
| MonitorError (twitter_user_id : pystr) (e : exn).

Inductive log_line : Type :=
| StartedMonitoring (twitter_user_id : pystr) (chat : Z)
| StoppedMonitoring (twitter_user_id : pystr) (chat : Z)
| ErrorFetching (user_id : pystr) (e : exn)
| SkippedByKeywordFilter (tweet_id : json)
| ErrorInMonitor (twitter_user_id : pystr) (e : exn)
| FailedToSend (response_text : pystr)
| ErrorSending (e : exn).

Inductive event : Type :=
| LogInfo (l : log_line)
| LogError (l : log_line)
| HttpGet (user_id api_key : pystr)
| HttpPost (chat : Z) (msg : message)
| Sleep (secs : Z).

(** What [requests.get(...)], [raise_for_status()] and [json()] come to:
    the decoded body, or the exception one of them raised. *)
Inductive get_outcome : Type :=
| GetJson (body : json)
| GetRaised (e : exn).

(** What [requests.post(...)] comes to. *)
Inductive post_outcome : Type :=
| PostStatus (status_code : Z) (response_text : pystr)
| PostRaised (e : exn).

Record poll_input : Type := {
  get_result : get_outcome;
  get_time : Z;            (* duration of the GET *)
  post_result : post_outcome;
  post_time : Z;           (* duration of the POST, if one is made *)
  ist_time : pystr         (* what get_ist_time() returns *)
}.

Record wstate : Type := {
  latest_tweet_id : json;
  clock : Z;
  trace : list event
}.

(** How a block of statements ends: it falls through, it executes
    [continue], or it raises. *)
Inductive ctl (A : Type) : Type :=
| Next (a : A)
| Continue
| Raising (e : exn).
Arguments Next {A} a.
Arguments Continue {A}.
Arguments Raising {A} e.

Definition M (A : Type) : Type := wstate -> ctl A * wstate.

#[export] Instance M_ret : MRet M := fun A a s => (Next a, s).

#[export] Instance M_bind : MBind M := fun A B k m s =>
  match m s with
  | (Next a, s') => k a s'
  | (Continue, s') => (Continue, s')
  | (Raising e, s') => (Raising e, s')
  end.

Definition emit (e : event) : M unit := fun s =>
  (Next tt, {| latest_tweet_id := latest_tweet_id s;
               clock := clock s;
               trace := trace s ++ [e] |}).

Definition elapse (d : Z) : M unit := fun s =>
  (Next tt, {| latest_tweet_id := latest_tweet_id s;
               clock := clock s + d;
               trace := trace s |}).

Definition read_latest : M json := fun s => (Next (latest_tweet_id s), s).

Definition write_latest (v : json) : M unit := fun s =>
  (Next tt, {| latest_tweet_id := v; clock := clock s; trace := trace s |}).

Definition continue_ {A : Type} : M A := fun s => (Continue, s).

Definition raise_ {A : Type} (e : exn) : M A := fun s => (Raising e, s).

Definition lift {A : Type} (r : res A) : M A :=
  match r with
  | Ok a => mret a
  | Raise e => raise_ e
  end.

(** [time.sleep(secs)]: the thread is blocked for the whole duration;
    nothing can shorten it. *)
Definition sleep (secs : Z) : M unit := emit (Sleep secs);; elapse secs.

Definition get_user_tweets (user_id api_key : pystr) (inp : poll_input) : M json :=
  emit (HttpGet user_id api_key);;
  elapse (get_time inp);;
  match get_result inp with
  | GetJson body => mret body
  | GetRaised e =>
      if is_request_exception e
      then emit (LogError (ErrorFetching user_id e));; mret JNull
      else raise_ e
  end.

Definition send_telegram_message (msg : message) (target_chat_id : Z)
    (inp : poll_input) : M unit :=
  emit (HttpPost target_chat_id msg);;
  elapse (post_time inp);;
  match post_result inp with
  | PostStatus status_code response_text =>
      if (status_code =? 200)%Z then mret tt
      else emit (LogError (FailedToSend response_text))
  | PostRaised e => emit (LogError (ErrorSending e))
  end.

Definition is_none (v : json) : bool :=
  match v with JNull => true | _ => false end.

(** A [threading.Event] as the thread sees it: the time at which some
    other thread calls [set()], if ever. The flag is never cleared. *)
Definition is_set (stop_event : option Z) (now : Z) : bool :=
  match stop_event with
  | Some t => (t <=? now)%Z
  | None => false
  end.

Inductive status : Type := Running | Stopped.

Section polling_thread.
Context {U : Unicode}.

(** The statements of [monitor_tweets] from [retweet_flag = ...] to
    [msg = ...]: the message built for a tweet. *)
Definition tweet_message (timestamp twitter_user_id : pystr) (tweet_id : json)
    (tweet_text : pystr) : message :=
  let retweet_text : pystr :=
    if retweet_flag tweet_text then "Retweet" else "Original Tweet" in
  let hashtags := findall_hashtags tweet_text in
  let hashtags_text : pystr :=
    match hashtags with [] => "None" | _ :: _ => join ", " hashtags end in
  NewTweet timestamp twitter_user_id tweet_id retweet_text hashtags_text
    tweet_text.

(** The body of the [try] statement inside the loop. The first string
    method called on the text is [lower] when there are keywords and
    [startswith] when there are none. *)
Definition poll_body (twitter_user_id rapidapi_key : pystr) (target_chat_id : Z)
    (keywords : list pystr) (inp : poll_input) : M unit :=
  tweets_data ← get_user_tweets twitter_user_id rapidapi_key inp;
  (if py_truthy tweets_data then
     tweet_text ← lift (get_tweet_text tweets_data);
     tweet_id ← lift (get_tweet_id tweets_data);
     latest ← read_latest;
     if py_truthy tweet_text && py_truthy tweet_id
        && (is_none latest || negb (py_eq tweet_id latest))
     then
       (match keywords with
        | [] => mret tt
        | _ :: _ =>
            text ← lift (as_str "lower" tweet_text);
            if negb (any_keyword keywords text)
            then emit (LogInfo (SkippedByKeywordFilter tweet_id));;
                 sleep 5;;
                 continue_
            else mret tt
        end);;
       write_latest tweet_id;;
       let timestamp := ist_time inp in
       text ← lift (as_str "startswith" tweet_text);
       let msg := tweet_message timestamp twitter_user_id tweet_id text in
       send_telegram_message msg target_chat_id inp
     else mret tt
   else mret tt);;
  sleep 5.

(** One pass through the loop body: the [try] block and its
    [except Exception] handler. *)
Definition poll_iteration (twitter_user_id rapidapi_key : pystr)
    (target_chat_id : Z) (keywords : list pystr) (inp : poll_input)
    (s : wstate) : wstate :=
  match poll_body twitter_user_id rapidapi_key target_chat_id keywords inp s with
  | (Next _, s') => s'
  | (Continue, s') => s'
  | (Raising e, s') =>
      snd ((emit (LogError (ErrorInMonitor twitter_user_id e));;
            send_telegram_message (MonitorError twitter_user_id e) target_chat_id inp;;
            sleep 5) s')
  end.

(** [while not stop_event.is_set(): ...], run on the inputs the world
    supplies; [Running] when they are used up and the loop would go on. *)
Fixpoint monitor_loop (twitter_user_id rapidapi_key : pystr)
    (target_chat_id : Z) (stop_event : option Z) (keywords : list pystr)
    (inputs : list poll_input) (s : wstate) : status * wstate :=
  if is_set stop_event (clock s) then (Stopped, s)
  else match inputs with
       | [] => (Running, s)
       | inp :: inputs' =>
           monitor_loop twitter_user_id rapidapi_key target_chat_id stop_event
             keywords inputs'
             (poll_iteration twitter_user_id rapidapi_key target_chat_id
                keywords inp s)
       end.

(** [monitor_tweets], started at time [now]. *)
Definition monitor_tweets (twitter_user_id rapidapi_key : pystr)
    (target_chat_id : Z) (stop_event : option Z) (keywords : list pystr)
    (now : Z) (inputs : list poll_input) : status * wstate :=
  let s0 := {| latest_tweet_id := JNull;
               clock := now;
               trace := [LogInfo (StartedMonitoring twitter_user_id target_chat_id)] |} in
  match monitor_loop twitter_user_id rapidapi_key target_chat_id stop_event
          keywords inputs s0 with
  | (Stopped, s) =>
      (Stopped,
       snd (emit (LogInfo (StoppedMonitoring twitter_user_id target_chat_id)) s))
  | (Running, s) => (Running, s)
  end.
End polling_thread.

(** ** The registry and the conversation handlers

    [monitor_flags] maps a pair (chat id, Twitter user id) to the
    [threading.Event] of the thread started for it. The dict and the
    thread share the event object, so events live in a store of their
    own: an event is named by its creation number, [next_event] counts
    the events created so far and [signalled] holds those whose flag is
    set.

    A handler is modelled on an update that carries a message with a
    text: its argument [chat] is [update.message.chat.id] and
    [message_text] is [update.message.text]. *)

Record worker : Type := {
  w_twitter_user_id : pystr;
  w_rapidapi_key : pystr;
  w_target_chat_id : Z;
  w_stop_event : nat;
  w_keywords : list pystr
}.

(** The texts passed to [update.message.reply_text], with the values
    they interpolate. *)
Inductive reply : Type :=
| Welcome
| AskKeywords
| ConfigurationReceived
| OperationCancelled
| AskStop
| StoppedCount (count : nat)
| StoppedUser (input_text : pystr)
| NoActiveMonitor (input_text : pystr).

(** What the awaited call [update.message.reply_text(...)] comes to: it
    returns, or it raises (a network or Telegram error). Every handler
    makes exactly one such call. *)
Inductive reply_outcome : Type :=
| ReplySent
| ReplyRaised (e : exn).

Record bot_state : Type := {
  monitor_flags : gmap (Z * pystr) nat;
  next_event : nat;
  signalled : gset nat;
  threads : list worker;          (* threads started, oldest first *)
  replies : list (Z * reply)      (* replies sent, oldest first *)
}.

(** [context.user_data], with the three keys the handlers use. *)
Record user_data : Type := {
  ud_twitter_user_id : option pystr;
  ud_keywords : option (list pystr);
  ud_target_chat_id : option Z
}.

(** Conversation states; [END] is [ConversationHandler.END]. *)
Inductive conv : Type := TWITTER_ID | KEYWORDS | STOP_STATE | END.

Definition initial_state : bot_state :=
  {| monitor_flags := ∅; next_event := 0%nat; signalled := ∅;
     threads := []; replies := [] |}.

(** [await update.message.reply_text(r)] in the chat [chat]. *)
Definition reply_text (chat : Z) (r : reply) (out : reply_outcome)
    (st : bot_state) : res unit * bot_state :=
  match out with
  | ReplySent =>
      (Ok tt,
       {| monitor_flags := monitor_flags st; next_event := next_event st;
          signalled := signalled st; threads := threads st;
          replies := replies st ++ [(chat, r)] |})
  | ReplyRaised e => (Raise e, st)
  end.

(** A handler whose last statements are the reply and [return state]. *)
Definition reply_and_return (chat : Z) (r : reply) (out : reply_outcome)
    (state : conv) (st : bot_state) : res conv * bot_state :=
  match reply_text chat r out st with
  | (Ok _, st') => (Ok state, st')
  | (Raise e, st') => (Raise e, st')
  end.

(** What such a handler returns, and the replies it adds to those sent,
    by the outcome of its call. *)
Definition handler_result (out : reply_outcome) (state : conv) : res conv :=
  match out with
  | ReplySent => Ok state
  | ReplyRaised e => Raise e
  end.

Definition sent_replies (out : reply_outcome) (chat : Z) (r : reply)
    : list (Z * reply) :=
  match out with
  | ReplySent => [(chat, r)]
  | ReplyRaised _ => []
  end.

(** [stop_event = threading.Event()] *)
Definition new_event (st : bot_state) : nat * bot_state :=
  (next_event st,
   {| monitor_flags := monitor_flags st; next_event := S (next_event st);
      signalled := signalled st; threads := threads st;
      replies := replies st |}).

(** [ev.set()] *)
Definition event_set (ev : nat) (st : bot_state) : bot_state :=
  {| monitor_flags := monitor_flags st; next_event := next_event st;
     signalled := {[ ev ]} ∪ signalled st; threads := threads st;
     replies := replies st |}.

(** [monitor_flags[key] = ev] *)
Definition flags_assign (key : Z * pystr) (ev : nat) (st : bot_state) : bot_state :=
  {| monitor_flags := <[key := ev]> (monitor_flags st);
     next_event := next_event st; signalled := signalled st;
     threads := threads st; replies := replies st |}.

(** [del monitor_flags[key]] *)
Definition flags_del (key : Z * pystr) (st : bot_state) : bot_state :=
  {| monitor_flags := delete key (monitor_flags st);
     next_event := next_event st; signalled := signalled st;
     threads := threads st; replies := replies st |}.

(** [threading.Thread(target=monitor_tweets, args=..., daemon=True).start()] *)
Definition thread_start (w : worker) (st : bot_state) : bot_state :=
  {| monitor_flags := monitor_flags st; next_event := next_event st;
     signalled := signalled st; threads := threads st ++ [w];
     replies := replies st |}.

Definition start (chat : Z) (out : reply_outcome) (st : bot_state)
    : res conv * bot_state :=
  reply_and_return chat Welcome out TWITTER_ID st.

Definition cancel (chat : Z) (out : reply_outcome) (st : bot_state)
    : res conv * bot_state :=
  reply_and_return chat OperationCancelled out END st.

Definition stop_command (chat : Z) (out : reply_outcome) (st : bot_state)
    : res conv * bot_state :=
  reply_and_return chat AskStop out STOP_STATE st.

(** [list(monitor_flags.keys())]: the keys in the order the dict
    enumerates them. *)
Definition flags_keys (st : bot_state) : list (Z * pystr) :=
  (map_to_list (monitor_flags st)).*1.

(** The [for key in ...] loop of the "all" branch, over the snapshot
    [keys], with the running [count]. *)
Fixpoint stop_all_loop (chat_id : Z) (keys : list (Z * pystr))
    (st : bot_state) (count : nat) : res nat * bot_state :=
  match keys with
  | [] => (Ok count, st)
  | key :: keys' =>
      if (key.1 =? chat_id)%Z then
        match monitor_flags st !! key with
        | Some ev =>
            stop_all_loop chat_id keys' (flags_del key (event_set ev st)) (S count)
        | None => (Raise (KeyError (JArr [JNum key.1; JStr key.2])), st)
        end
      else stop_all_loop chat_id keys' st count
  end.

Section handlers.
Context {U : Unicode}.

Definition receive_twitter_id (chat : Z) (message_text : pystr)
    (out : reply_outcome) (ud : user_data) (st : bot_state)
    : res conv * user_data * bot_state :=
  let twitter_user_id := strip message_text in
  let ud' := {| ud_twitter_user_id := Some twitter_user_id;
                ud_keywords := ud_keywords ud;
                ud_target_chat_id := ud_target_chat_id ud |} in
  let (r, st') := reply_and_return chat AskKeywords out KEYWORDS st in
  (r, ud', st').

(** The keyword list [receive_keywords] builds from the stripped message
    text. *)
Definition parse_keywords (text : pystr) : list pystr :=
  if bool_decide (lower text = "none") then []
  else List.filter (fun word => match word with [] => false | _ => true end)
         (List.map strip (split_on (ord ",") text)).

(** The registry entry is written before the confirmation is sent, the
    thread is started after it. *)
Definition receive_keywords (RAPIDAPI_KEY : pystr) (chat : Z)
    (message_text : pystr) (out : reply_outcome) (ud : user_data)
    (st : bot_state) : res conv * user_data * bot_state :=
  let text := strip message_text in
  let keywords := parse_keywords text in
  let target_chat_id := chat in
  let ud' := {| ud_twitter_user_id := ud_twitter_user_id ud;
                ud_keywords := Some keywords;
                ud_target_chat_id := Some target_chat_id |} in
  match ud_twitter_user_id ud' with
  | None => (Raise (KeyError (JStr "twitter_user_id")), ud', st)
  | Some twitter_user_id =>
      let rapidapi_key := RAPIDAPI_KEY in
      let (stop_event, st1) := new_event st in
      let st2 := flags_assign (target_chat_id, twitter_user_id) stop_event st1 in
      match reply_text chat ConfigurationReceived out st2 with
      | (Raise e, st3) => (Raise e, ud', st3)
      | (Ok _, st3) =>
          let st4 := thread_start
                       {| w_twitter_user_id := twitter_user_id;
                          w_rapidapi_key := rapidapi_key;
                          w_target_chat_id := target_chat_id;
                          w_stop_event := stop_event;
                          w_keywords := keywords |} st3 in
          (Ok END, ud', st4)
      end
  end.

Definition receive_stop (chat : Z) (message_text : pystr)
    (out : reply_outcome) (st : bot_state) : res conv * bot_state :=
  let chat_id := chat in
  let input_text := strip message_text in
  if bool_decide (lower input_text = "all") then
    match stop_all_loop chat_id (flags_keys st) st 0%nat with
    | (Ok count, st') => reply_and_return chat (StoppedCount count) out END st'
    | (Raise e, st') => (Raise e, st')
    end
  else
    let key := (chat_id, input_text) in
    match monitor_flags st !! key with
    | Some ev =>
        reply_and_return chat (StoppedUser input_text) out END
          (flags_del key (event_set ev st))
    | None => reply_and_return chat (NoActiveMonitor input_text) out END st
    end.
End handlers.

(** ** Specifications of the text operations *)

Section text_specifications.
Context {U : Unicode}.

(** [keyword] occurs in [text] as a substring once both are mapped to
    lower case: the case-insensitive substring test. *)
Definition occurs_ignoring_case (keyword text : pystr) : Prop :=
  ∃ pre post, lower text = pre ++ lower keyword ++ post.

(** The same for ASCII text, where the mapping goes character by
    character: a piece of [text] reads like [keyword] up to the case of
    the letters A to Z. *)
Definition occurs_up_to_ascii_case (keyword text : pystr) : Prop :=
  ∃ pre mid post,
    text = pre ++ mid ++ post ∧ ascii_lower <$> mid = ascii_lower <$> keyword.

Definition all_word (w : pystr) : bool := forallb is_word w.

Definition starts_with_word (s : pystr) : bool :=
  match s with
  | [] => false
  | c :: _ => is_word c
  end.

(** No [#] of [g] is followed, in [g], by a word character: the pattern
    matches nowhere in [g]. *)
Definition no_hashtag (g : pystr) : Prop :=
  ∀ pre c post, g = pre ++ ord "#" :: c :: post → is_word c = false.

(** [hashtag_matches text tags]: [text] reads
    [g0 #w1 g1 #w2 ... #wn gn] where every [wi] is a non-empty run of
    word characters that cannot be extended to the right, the pattern
    matches nowhere in a gap [gi], and [tags] is [#w1, ..., #wn] in this
    order, one entry per occurrence. *)
Inductive hashtag_matches : pystr → list pystr → Prop :=
| matches_none g :
    no_hashtag g → hashtag_matches g []
| matches_cons g w rest tags :
    no_hashtag g →
    w ≠ [] →
    all_word w = true →
    starts_with_word rest = false →
    hashtag_matches rest tags →
    hashtag_matches (g ++ ord "#" :: w ++ rest) ((ord "#" :: w) :: tags).

(** The scan of [re.findall] is idle in [cur] before [s]: no match is
    under construction, or only a [#] that [s] does not continue. *)
Definition idle (cur : option pystr) (s : pystr) : Prop :=
  cur = None ∨ (cur = Some [ord "#"] ∧ starts_with_word s = false).
End text_specifications.

(** Every event named in the state has been created: the invariant of
    the event store. *)
Definition events_allocated (st : bot_state) : Prop :=
  (∀ key ev, monitor_flags st !! key = Some ev → (ev < next_event st)%nat)
  ∧ (∀ ev, ev ∈ signalled st → (ev < next_event st)%nat)
  ∧ Forall (λ w, (w_stop_event w < next_event st)%nat) (threads st).

(** ** Sample registry states *)

(** Two monitors in two chats, both running. *)
Definition two_monitors : bot_state :=
  {| monitor_flags :=
       <[(1, of_string "nasa") := 0%nat]> (<[(2, of_string "esa") := 1%nat]> ∅);
     next_event := 2; signalled := ∅;
     threads := []; replies := [] |}.

(** Chat 1 watches two users, chat 2 one. *)
Definition three_monitors : bot_state :=
  {| monitor_flags :=
       <[(1, of_string "nasa") := 0%nat]>
         (<[(2, of_string "esa") := 1%nat]>
            (<[(1, of_string "jaxa") := 2%nat]> ∅));
     next_event := 3; signalled := ∅;
     threads := []; replies := [] |}.

(** [context.user_data] after [receive_twitter_id] stored "nasa". *)
Definition nasa_data : user_data :=
  {| ud_twitter_user_id := Some (of_string "nasa"); ud_keywords := None;
     ud_target_chat_id := None |}.

Section sample_conversations.
Context {U : Unicode}.

(** The conversation that starts a monitor of "nasa" in chat 1, run
    twice from the initial state; both confirmations are sent. *)
Definition first_start : res conv * user_data * bot_state :=
  receive_keywords "k" 1 "launch, orbit" ReplySent nasa_data initial_state.

Definition second_start : res conv * user_data * bot_state :=
  receive_keywords "k" 1 "none" ReplySent nasa_data first_start.2.

(** The same start, when the confirmation cannot be sent. *)
Definition unconfirmed_start : res conv * user_data * bot_state :=
  receive_keywords "k" 1 "none" (ReplyRaised (OtherError "Timed out"))
    nasa_data initial_state.
End sample_conversations.

(** ** Observations on the polling thread *)

(** What [send_telegram_message] logs, by the outcome of the POST. *)
Definition post_log (inp : poll_input) : list event :=
  match post_result inp with
  | PostStatus status_code response_text =>
      if (status_code =? 200)%Z then []
      else [LogError (FailedToSend response_text)]
  | PostRaised e => [LogError (ErrorSending e)]
  end.

(** The messages posted to Telegram in a trace, oldest first. *)
Fixpoint posts (tr : list event) : list (Z * message) :=
  match tr with
  | [] => []
  | HttpPost chat msg :: tr' => (chat, msg) :: posts tr'
  | _ :: tr' => posts tr'
  end.

(** The ids of the tweets announced in a trace, oldest first. *)
Fixpoint announced (tr : list event) : list json :=
  match tr with
  | [] => []
  | HttpPost _ (NewTweet _ _ tweet_id _ _ _) :: tr' => tweet_id :: announced tr'
  | _ :: tr' => announced tr'
  end.

(** The GET of this iteration succeeds and the newest tweet of the
    decoded timeline has the text [tweet_text] and the id [tweet_id]. *)
Definition fetches (inp : poll_input) (tweet_id : json) (tweet_text : pystr) : Prop :=
  ∃ data, get_result inp = GetJson data
          ∧ py_truthy data = true
          ∧ get_tweet_text data = Ok (JStr tweet_text)
          ∧ get_tweet_id data = Ok tweet_id.

(** The tweet is new to a thread whose marker is [latest]. *)
Definition is_new (latest tweet_id : json) : bool :=
  is_none latest || negb (py_eq tweet_id latest).

(** The ids, in a sequence of polled ids, that differ from the id polled
    before them; [last] is the marker before the first poll. *)
Fixpoint changes (last : json) (ids : list pystr) : list pystr :=
  match ids with
  | [] => []
  | i :: ids' =>
      if is_new last (JStr i) then i :: changes (JStr i) ids'
      else changes last ids'
  end.

(** Tweet ids are decimal numerals; they are compared by value. *)
Fixpoint decimal_value (acc : N) (s : pystr) : N :=
  match s with
  | [] => acc
  | c :: r => decimal_value (10 * acc + (c - ord "0")) r
  end.

Definition id_before (a b : pystr) : Prop :=
  (decimal_value 0 a < decimal_value 0 b)%N.

Section observations.
Context {U : Unicode}.

(** The keyword filter lets the text through. *)
Definition passes_filter (keywords : list pystr) (tweet_text : pystr) : Prop :=
  keywords = [] ∨ any_keyword keywords tweet_text = true.

(** The loop body run on each input in turn, never interrupted. *)
Definition poll_all (twitter_user_id rapidapi_key : pystr) (target_chat_id : Z)
    (keywords : list pystr) (inputs : list poll_input) (s : wstate) : wstate :=
  fold_left
    (λ s inp, poll_iteration twitter_user_id rapidapi_key target_chat_id
                keywords inp s)
    inputs s.
End observations.

(** ** Sample timelines and iterations *)

(** A timeline whose newest entry is the tweet [(tweet_id, tweet_text)],
    in the shape the scraper functions expect. *)
Definition entry_with (tweet_id tweet_text : json) : json :=
  JObj [(of_string "content",
    JObj [(of_string "itemContent",
      JObj [(of_string "tweet_results",
        JObj [(of_string "result",
          JObj [(of_string "legacy",
            JObj [(of_string "full_text", tweet_text);
                  (of_string "id_str", tweet_id)])])])])])].

Definition timeline_with (tweet_id tweet_text : json) : json :=
  JObj [(of_string "result",
    JObj [(of_string "timeline",
      JObj [(of_string "instructions",
        JArr [JObj [(of_string "type", JStr "TimelineClearCache")];
              JObj [(of_string "entries",
                     JArr [entry_with tweet_id tweet_text])]])])])].

(** An iteration in which the timeline shows that tweet; the calls take
    no time and Telegram answers 200. *)
Definition poll_of (tweet_id tweet_text : pystr) : poll_input :=
  {| get_result := GetJson (timeline_with (JStr tweet_id) (JStr tweet_text));
     get_time := 0;
     post_result := PostStatus 200 "ok";
     post_time := 0;
     ist_time := "2025-01-01 00:00:00 IST" |}.

(** An iteration in which the GET fails with a connection error. *)
Definition poll_failed : poll_input :=
  {| get_result := GetRaised (RequestException "connection refused");
     get_time := 0;
     post_result := PostStatus 200 "ok";
     post_time := 0;
     ist_time := "2025-01-01 00:00:00 IST" |}.

(** An iteration in which the decoded body is [{"result": null}]. *)
Definition poll_null_result : poll_input :=
  {| get_result := GetJson (JObj [(of_string "result", JNull)]);
     get_time := 0;
     post_result := PostStatus 200 "ok";
     post_time := 0;
     ist_time := "2025-01-01 00:00:00 IST" |}.

(** The state of a thread started at time 0, before its first
    iteration. *)
Definition fresh_thread : wstate :=
  {| latest_tweet_id := JNull; clock := 0; trace := [] |}.

(** ** Further observations *)

(** The number of GET requests in a trace. *)
Fixpoint gets (tr : list event) : nat :=
  match tr with
  | [] => 0%nat
  | HttpGet _ _ :: tr' => S (gets tr')
  | _ :: tr' => gets tr'
  end.

(** The durations of the sleeps in a trace, oldest first. *)
Fixpoint sleeps (tr : list event) : list Z :=
  match tr with
  | [] => []
  | Sleep secs :: tr' => secs :: sleeps tr'
  | _ :: tr' => sleeps tr'
  end.

(** The state after an iteration that only asks the timeline and
    sleeps. *)
Definition quiet_iteration (twitter_user_id rapidapi_key : pystr) (inp : poll_input)
    (s : wstate) : wstate :=
  {| latest_tweet_id := latest_tweet_id s;
     clock := clock s + get_time inp + 5;
     trace := trace s ++ [HttpGet twitter_user_id rapidapi_key; Sleep 5] |}.

(** The network calls of the iteration take no negative time, and
    together at most [d]. *)
Definition calls_within (d : Z) (inp : poll_input) : Prop :=
  (0 ≤ get_time inp)%Z ∧ (0 ≤ post_time inp)%Z
  ∧ (get_time inp + post_time inp ≤ d)%Z.

Section updates.
Context {U : Unicode}.

(** One update handled by the bot: any handler, called with any chat,
    message text and user data, whatever becomes of its reply. A handler
    that raises leaves the state as it is at that point. *)
Inductive handler_step : bot_state → bot_state → Prop :=
| step_start chat out st :
    handler_step st (start chat out st).2
| step_receive_twitter_id chat message_text out ud st :
    handler_step st (receive_twitter_id chat message_text out ud st).2
| step_receive_keywords RAPIDAPI_KEY chat message_text out ud st :
    handler_step st (receive_keywords RAPIDAPI_KEY chat message_text out ud st).2
| step_cancel chat out st :
    handler_step st (cancel chat out st).2
| step_stop_command chat out st :
    handler_step st (stop_command chat out st).2
| step_receive_stop chat message_text out st :
    handler_step st (receive_stop chat message_text out st).2.

(** The states the bot can be in after any number of updates. *)
Definition reachable (st : bot_state) : Prop := rtc handler_step initial_state st.
End updates.

(** What the registry promises about its entries: their events exist,
    are not set, are not shared between keys, and a thread that holds the
    event of an entry was started for the chat and the user of that
    entry. *)
Definition registry_inv (st : bot_state) : Prop :=
  events_allocated st
  ∧ (∀ key ev, monitor_flags st !! key = Some ev → ev ∉ signalled st)
  ∧ (∀ key1 key2 ev,
       monitor_flags st !! key1 = Some ev →
       monitor_flags st !! key2 = Some ev → key1 = key2)
  ∧ (∀ key ev w, monitor_flags st !! key = Some ev →
       w ∈ threads st → w_stop_event w = ev →
       w_target_chat_id w = key.1 ∧ w_twitter_user_id w = key.2).

(** ** Further sample iterations *)

(** The GET raises an exception outside the [requests] family. *)
Definition poll_raising : poll_input :=
  {| get_result := GetRaised (OtherError "out of memory");
     get_time := 2;
     post_result := PostStatus 200 "ok";
     post_time := 1;
     ist_time := "2025-01-01 00:00:00 IST" |}.

(** The decoded body is the empty object. *)
Definition poll_empty_body : poll_input :=
  {| get_result := GetJson (JObj []);
     get_time := 2;
     post_result := PostStatus 200 "ok";
     post_time := 1;
     ist_time := "2025-01-01 00:00:00 IST" |}.

(** The newest tweet's text is the number 5. *)
Definition poll_number_text : poll_input :=
  {| get_result := GetJson (timeline_with (JStr "1900") (JNum 5));
     get_time := 2;
     post_result := PostStatus 200 "ok";
     post_time := 1;
     ist_time := "2025-01-01 00:00:00 IST" |}.

(** The timeline shows a tweet and Telegram answers 500. *)
Definition poll_undelivered (tweet_id tweet_text : pystr) : poll_input :=
  {| get_result := GetJson (timeline_with (JStr tweet_id) (JStr tweet_text));
     get_time := 2;
     post_result := PostStatus 500 "Internal Server Error";
     post_time := 1;
     ist_time := "2025-01-01 00:00:00 IST" |}.

(** * Properties *)

(** ** Text operations *)

Section text.
Context {U : Unicode}.
Implicit Types (s t u w g : pystr) (c : codepoint).

(** [s.startswith(p)] holds exactly when [s] is [p] followed by
    something. *)
Lemma startswith_spec s p : startswith s p = true ↔ ∃ r, s = p ++ r.
Proof. unfold startswith. by rewrite bool_decide_eq_true. Qed.

Lemma contains_nil needle : contains needle [] = startswith [] needle.
Proof. simpl. apply orb_false_r. Qed.

Lemma contains_cons needle c hay :
  contains needle (c :: hay)
  = startswith (c :: hay) needle || contains needle hay.
Proof. reflexivity. Qed.

(** [needle in hay] holds exactly when [needle] is a substring of
    [hay]. *)
Lemma contains_spec needle hay :
  contains needle hay = true ↔ ∃ pre post, hay = pre ++ needle ++ post.
Proof.
  split.
  - induction hay as [|c hay IH].
    + rewrite contains_nil. intros [r Hr]%startswith_spec. by exists [], r.
    + rewrite contains_cons. intros [H|H]%orb_true_iff.
      * apply startswith_spec in H as [r Hr]. by exists [], r.
      * destruct (IH H) as (pre & post & ->). by exists (c :: pre), post.
  - intros (pre & post & ->). induction pre as [|c pre IH].
    + assert (H : startswith (needle ++ post) needle = true).
      { apply startswith_spec. by exists post. }
      simpl. destruct (needle ++ post); simpl in *; rewrite H; done.
    + simpl app. rewrite contains_cons, IH. apply orb_true_r.
Qed.

(** The test the keyword filter applies to one keyword is the
    case-insensitive substring test. *)
Lemma contains_lower_spec keyword text :
  contains (lower keyword) (lower text) = true
  ↔ occurs_ignoring_case keyword text.
Proof. apply contains_spec. Qed.

Lemma any_keyword_spec keywords text :
  any_keyword keywords text = true
  ↔ ∃ keyword, keyword ∈ keywords ∧ occurs_ignoring_case keyword text.
Proof.
  unfold any_keyword. rewrite existsb_exists. split.
  - intros (k & Hin & H). exists k. split; [by apply list_elem_of_In|].
    by apply contains_lower_spec.
  - intros (k & Hin & H). exists k. split; [by apply list_elem_of_In|].
    by apply contains_lower_spec.
Qed.

(** On ASCII text the runtime's tables play no part. *)
Lemma lower_ascii s :
  forallb is_ascii s = true → lower s = ascii_lower <$> s.
Proof. unfold lower. by intros ->. Qed.

(** For an ASCII keyword and an ASCII text the test says that a piece
    of the text reads like the keyword up to the case of its letters. *)
Lemma occurs_ignoring_case_ascii keyword text :
  forallb is_ascii keyword = true → forallb is_ascii text = true →
  occurs_ignoring_case keyword text ↔ occurs_up_to_ascii_case keyword text.
Proof.
  intros Hk Ht. unfold occurs_ignoring_case, occurs_up_to_ascii_case.
  rewrite !lower_ascii by done. split.
  - intros (p & q & H).
    apply fmap_app_inv in H as (pre & rest & -> & H & ->).
    symmetry in H. apply fmap_app_inv in H as (mid & post & Hmid & -> & ->).
    by exists pre, mid, post.
  - intros (pre & mid & post & -> & Hmid).
    exists (ascii_lower <$> pre), (ascii_lower <$> post).
    by rewrite !fmap_app, Hmid.
Qed.
End text.

Section hashtags.
Context {U : Unicode}.
Implicit Types (s t u w g rest acc : pystr) (c : codepoint)
               (cur : option pystr) (tags : list pystr).

Lemma hash_not_word : is_word (ord "#") = false.
Proof. reflexivity. Qed.

Lemma open_tag_hash : open_tag (ord "#") = Some [ord "#"].
Proof. reflexivity. Qed.

Lemma open_tag_other c : c ≠ ord "#" → open_tag c = None.
Proof.
  intros Hc. unfold open_tag. by destruct (N.eqb_spec c (ord "#")).
Qed.

Lemma no_hashtag_nil : no_hashtag [].
Proof. intros pre c post H. by destruct pre. Qed.

Lemma no_hashtag_cons c g :
  no_hashtag (c :: g)
  ↔ (c = ord "#" → starts_with_word g = false) ∧ no_hashtag g.
Proof.
  split.
  - intros H. split.
    + intros ->. destruct g as [|d g]; [done|]. simpl.
      by apply (H [] d g).
    + intros pre d post ->. by apply (H (c :: pre) d post).
  - intros [Hc Hg] pre d post H. destruct pre as [|e pre].
    + injection H as -> ->. by apply Hc.
    + injection H as -> ->. by apply (Hg pre d post).
Qed.

Lemma starts_with_word_app_hash g s :
  starts_with_word g = false →
  starts_with_word (g ++ ord "#" :: s) = false.
Proof. by destruct g. Qed.

Lemma idle_step cur c s :
  idle cur (c :: s) →
  (c = ord "#" → starts_with_word s = false) →
  scan_tags cur (c :: s) = scan_tags (open_tag c) s
  ∧ idle (open_tag c) s.
Proof.
  intros Hidle Hc. split.
  - destruct Hidle as [->|[-> Hw]]; [done|]. simpl in *. by rewrite Hw.
  - destruct (decide (c = ord "#")) as [->|Hne].
    + right. rewrite open_tag_hash. auto.
    + left. by apply open_tag_other.
Qed.

(** Across a gap followed by a [#] the scan emits nothing. *)
Lemma scan_gap g : ∀ cur s,
  no_hashtag g → idle cur (g ++ ord "#" :: s) →
  scan_tags cur (g ++ ord "#" :: s) = scan_tags (Some [ord "#"]) s.
Proof.
  induction g as [|c g IH]; intros cur s Hg Hidle.
  - rewrite app_nil_l in *. destruct Hidle as [->|[-> _]]; done.
  - apply no_hashtag_cons in Hg as [Hc Hg]. rewrite <- app_comm_cons in *.
    destruct (idle_step cur c (g ++ ord "#" :: s) Hidle) as [-> Hidle'].
    { intros Heq. by apply starts_with_word_app_hash, Hc. }
    by apply IH.
Qed.

(** Across a gap that ends the text the scan emits nothing. *)
Lemma scan_last_gap g : ∀ cur,
  no_hashtag g → idle cur g → scan_tags cur g = [].
Proof.
  induction g as [|c g IH]; intros cur Hg Hidle.
  - destruct Hidle as [->|[-> _]]; done.
  - apply no_hashtag_cons in Hg as [Hc Hg].
    destruct (idle_step cur c g Hidle Hc) as [-> Hidle'].
    by apply IH.
Qed.

(** Inside a match the scan swallows a run of word characters. *)
Lemma scan_word w : ∀ acc rest,
  all_word w = true →
  scan_tags (Some acc) (w ++ rest) = scan_tags (Some (acc ++ w)) rest.
Proof.
  induction w as [|c w IH]; intros acc rest Hw.
  - by rewrite app_nil_r.
  - unfold all_word in Hw. simpl in Hw.
    apply andb_true_iff in Hw as [Hc Hw].
    simpl. rewrite Hc, IH by done.
    by rewrite <- app_assoc.
Qed.

(** A match ends where the word characters end. *)
Lemma scan_flush acc rest :
  starts_with_word rest = false →
  scan_tags (Some acc) rest = flush_tag (Some acc) ++ scan_tags None rest.
Proof.
  destruct rest as [|c rest]; simpl.
  - intros _. by rewrite app_nil_r.
  - by intros ->.
Qed.

(** The decomposition determines the list [re.findall] returns. *)
Lemma hashtag_matches_findall text tags :
  hashtag_matches text tags → findall_hashtags text = tags.
Proof.
  unfold findall_hashtags.
  induction 1 as [g Hg|g w rest tags Hg Hne Hw Hrest _ IH].
  - apply scan_last_gap; [done|by left].
  - rewrite scan_gap by (done || by left).
    rewrite scan_word, scan_flush, IH by done.
    simpl. by destruct w.
Qed.

(** Every string splits into its longest prefix of word characters and
    the rest. *)
Lemma word_span s :
  ∃ w rest, s = w ++ rest ∧ all_word w = true
            ∧ starts_with_word rest = false
            ∧ (starts_with_word s = true → w ≠ []).
Proof.
  induction s as [|c s (w & rest & -> & Hw & Hrest & _)].
  - by exists [], [].
  - destruct (is_word c) eqn:Hc.
    + exists (c :: w), rest. unfold all_word in *. simpl. rewrite Hc, Hw. done.
    + exists [], (c :: w ++ rest). simpl. rewrite Hc. done.
Qed.

Lemma no_hashtag_app_r s t : no_hashtag (s ++ t) → no_hashtag t.
Proof.
  induction s as [|c s IH]; [done|]. simpl app.
  intros [_ H]%no_hashtag_cons. by apply IH.
Qed.

(** Every text has a decomposition. *)
Lemma hashtag_matches_exists text : ∃ tags, hashtag_matches text tags.
Proof.
  induction text as [|c s [tags IH]].
  - exists []. constructor. apply no_hashtag_nil.
  - destruct (decide (c = ord "#" ∧ starts_with_word s = true))
      as [[-> Hs]|Hn].
    + (* a match starts here *)
      inversion IH as [g Hg Eg Et|g w rest tags' Hg Hne Hw Hrest Htl Eg Et]; subst.
      * destruct (word_span s) as (w & rest & -> & Hw & Hrest & Hne).
        exists [ord "#" :: w].
        apply (matches_cons [] w rest []); auto using no_hashtag_nil.
        constructor. by eapply no_hashtag_app_r.
      * destruct (word_span g) as (w0 & g0 & -> & Hw0 & Hg0 & Hne0).
        exists ((ord "#" :: w0) :: (ord "#" :: w) :: tags').
        rewrite <- app_assoc.
        apply (matches_cons [] w0 (g0 ++ ord "#" :: w ++ rest)).
        -- apply no_hashtag_nil.
        -- apply Hne0. by destruct (w0 ++ g0).
        -- done.
        -- by apply starts_with_word_app_hash.
        -- constructor; try done. by eapply no_hashtag_app_r.
    + (* no match starts here *)
      assert (Hc : c = ord "#" → starts_with_word s = false).
      { intros ->. destruct (starts_with_word s); [|done].
        exfalso. by apply Hn. }
      inversion IH as [g Hg Eg Et|g w rest tags' Hg Hne Hw Hrest Htl Eg Et]; subst.
      * exists []. constructor. by apply no_hashtag_cons.
      * exists ((ord "#" :: w) :: tags').
        apply (matches_cons (c :: g) w rest tags'); try done.
        apply no_hashtag_cons. split; [|done].
        intros ->. specialize (Hc eq_refl).
        destruct g; [done|]. done.
Qed.

(** [re.findall(r"#\w+", text)] returns exactly the matches of the
    decomposition. *)
Lemma findall_hashtags_spec text tags :
  findall_hashtags text = tags ↔ hashtag_matches text tags.
Proof.
  split; [|apply hashtag_matches_findall].
  intros <-. destruct (hashtag_matches_exists text) as [tags H].
  by rewrite (hashtag_matches_findall _ _ H).
Qed.

(** C5, amended: the retransmission flag of a text is true exactly when
    the text starts with the three characters [R], [T], space. The tag
    list is the list of matches of [#] followed by word characters, as
    the decomposition [hashtag_matches] describes them: each match is
    the longest possible, matches are listed from left to right and a
    tag that occurs twice is listed twice. For the text
    "RT check this out #space #news" the flag is true and the tag list
    is ["#space"; "#news"]. The word characters are those of the
    runtime's Unicode tables, whatever these are. *)
Theorem retweet_flag_and_hashtags :
  (∀ text, retweet_flag text = true ↔ ∃ rest, text = of_string "RT " ++ rest)
  ∧ (∀ text tags, findall_hashtags text = tags ↔ hashtag_matches text tags)
  ∧ retweet_flag "RT check this out #space #news" = true
  ∧ findall_hashtags "RT check this out #space #news"
    = [of_string "#space"; of_string "#news"]
  ∧ findall_hashtags "#news and again #news"
    = [of_string "#news"; of_string "#news"]
  ∧ (∀ timestamp twitter_user_id tweet_id text,
       tweet_message timestamp twitter_user_id tweet_id text
       = NewTweet timestamp twitter_user_id tweet_id
           (if retweet_flag text then "Retweet" else "Original Tweet")
           (match findall_hashtags text with
            | [] => "None"
            | tags => join ", " tags
            end)
           text).
Proof.
  split_and!; try reflexivity.
  - intros text. apply startswith_spec.
  - apply findall_hashtags_spec.
  - intros timestamp twitter_user_id tweet_id text. unfold tweet_message.
    by destruct (findall_hashtags text).
Qed.
End hashtags.

(** C5, as stated, fails: the flag is not the test for a prefix of two
    characters. The text "RTs are fun" starts with "RT" and is not
    flagged, and no token of two characters gives the flag: the token
    itself would have to be flagged, and it is too short to start with
    the three characters the code asks for. *)
Lemma retweet_flag_not_two_characters :
  (startswith "RTs are fun" "RT" = true ∧ retweet_flag "RTs are fun" = false)
  ∧ ¬ ∃ token : pystr, length token = 2%nat
               ∧ ∀ text, retweet_flag text = startswith text token.
Proof.
  split; [split; reflexivity|].
  intros (token & Hlen & Hflag). specialize (Hflag token).
  assert (Hself : startswith token token = true).
  { apply startswith_spec. exists []. by rewrite app_nil_r. }
  rewrite Hself in Hflag.
  apply startswith_spec in Hflag as [rest Hrest].
  apply (f_equal length) in Hrest.
  rewrite length_app, Hlen in Hrest. simpl in Hrest. lia.
Qed.

(** ** Extraction *)

Lemma subscripts_app v path1 path2 :
  subscripts v (path1 ++ path2)
  = res_bind (subscripts v path1) (λ v', subscripts v' path2).
Proof.
  revert v. induction path1 as [|sel path1 IH]; intros v; simpl; [done|].
  destruct (subscript v sel); simpl; [apply IH|done].
Qed.

(** Where the text is extracted without an exception, so is the id: the
    two paths differ in their last key only. *)
Lemma get_tweet_id_total data v :
  get_tweet_text data = Ok v → ∃ v', get_tweet_id data = Ok v'.
Proof.
  unfold get_tweet_text, get_tweet_id. rewrite !subscripts_app.
  destruct (subscripts data legacy_path) as [legacy|e]; simpl.
  - destruct legacy; simpl; try done.
    intros _. destruct (assoc _ d); simpl; by eexists.
  - destruct (is_key_or_index_error e); [by eexists|done].
Qed.

Section no_item.
Context {U : Unicode}.
Variables (twitter_user_id rapidapi_key : pystr) (target_chat_id : Z).
Variable keywords : list pystr.

(** A timeline in which a key of the path is missing or a list of the
    path is too short shows no tweet: the iteration posts nothing and
    keeps the marker. *)
Lemma poll_iteration_no_item inp s data :
  get_result inp = GetJson data →
  get_tweet_text data = Ok JNull →
  poll_iteration twitter_user_id rapidapi_key target_chat_id keywords inp s
  = {| latest_tweet_id := latest_tweet_id s;
       clock := clock s + get_time inp + 5;
       trace := trace s ++ [HttpGet twitter_user_id rapidapi_key; Sleep 5] |}.
Proof.
  intros Hget Htext.
  destruct (get_tweet_id_total data JNull Htext) as [v' Hid].
  unfold poll_iteration, poll_body, get_user_tweets.
  unfold mbind, M_bind, mret, M_ret, sleep, emit, elapse, lift.
  cbn -[py_truthy get_tweet_text get_tweet_id Z.add].
  rewrite Hget. cbn -[py_truthy get_tweet_text get_tweet_id Z.add].
  destruct (py_truthy data);
    cbn -[py_truthy get_tweet_text get_tweet_id Z.add].
  - rewrite Htext, Hid.
    unfold mbind, M_bind, mret, M_ret, sleep, emit, elapse, lift, read_latest.
    cbn -[Z.add]. by rewrite <- !app_assoc.
  - unfold mbind, M_bind, mret, M_ret, sleep, emit, elapse.
    cbn -[Z.add]. by rewrite <- !app_assoc.
Qed.
End no_item.

(** ** The polling thread *)

Section worker.
Context {U : Unicode}.
Variables (twitter_user_id rapidapi_key : pystr) (target_chat_id : Z).
Variable keywords : list pystr.
Implicit Types (s : wstate) (inp : poll_input) (inputs : list poll_input).

Local Abbreviation iteration :=
  (poll_iteration twitter_user_id rapidapi_key target_chat_id keywords).
Local Abbreviation run :=
  (poll_all twitter_user_id rapidapi_key target_chat_id keywords).
Local Abbreviation loop :=
  (monitor_loop twitter_user_id rapidapi_key target_chat_id).

Local Arguments py_truthy : simpl never.
Local Arguments py_eq : simpl never.
Local Arguments is_none : simpl never.
Local Arguments get_tweet_text : simpl never.
Local Arguments get_tweet_id : simpl never.
Local Arguments any_keyword : simpl never.
Local Arguments findall_hashtags : simpl never.
Local Arguments retweet_flag : simpl never.
Local Arguments join : simpl never.
Local Arguments Z.add : simpl never.

(** Unfolds the operations of the monad [M] and computes. *)
Ltac run_m :=
  unfold mbind, M_bind, mret, M_ret, sleep, emit, elapse, lift, read_latest,
    write_latest, continue_, raise_;
  cbn;
  unfold mbind, M_bind, mret, M_ret, sleep, emit, elapse, lift, read_latest,
    write_latest, continue_, raise_;
  cbn.

(** The three ways an iteration that fetched a tweet can go. *)

Lemma poll_iteration_seen inp s tweet_id tweet_text :
  fetches inp tweet_id tweet_text →
  py_truthy (JStr tweet_text) && py_truthy tweet_id
    && is_new (latest_tweet_id s) tweet_id = false →
  iteration inp s
  = {| latest_tweet_id := latest_tweet_id s;
       clock := clock s + get_time inp + 5;
       trace := trace s ++ [HttpGet twitter_user_id rapidapi_key; Sleep 5] |}.
Proof.
  intros (data & Hget & Hdata & Htext & Hid) Hcond.
  unfold poll_iteration, poll_body, get_user_tweets, is_new in *.
  run_m. rewrite Hget. run_m. rewrite Hdata, Htext, Hid. run_m.
  rewrite Hcond. run_m.
  by rewrite <- !app_assoc.
Qed.

Lemma poll_iteration_filtered inp s tweet_id tweet_text :
  fetches inp tweet_id tweet_text →
  py_truthy (JStr tweet_text) && py_truthy tweet_id
    && is_new (latest_tweet_id s) tweet_id = true →
  keywords ≠ [] →
  any_keyword keywords tweet_text = false →
  iteration inp s
  = {| latest_tweet_id := latest_tweet_id s;
       clock := clock s + get_time inp + 5;
       trace := trace s ++ [HttpGet twitter_user_id rapidapi_key;
                            LogInfo (SkippedByKeywordFilter tweet_id);
                            Sleep 5] |}.
Proof.
  intros (data & Hget & Hdata & Htext & Hid) Hcond Hkw Hany.
  unfold poll_iteration, poll_body, get_user_tweets, is_new in *.
  run_m. rewrite Hget. run_m. rewrite Hdata, Htext, Hid. run_m.
  rewrite Hcond. run_m.
  destruct keywords as [|kw kws]; [done|]. run_m. rewrite Hany. run_m.
  by rewrite <- !app_assoc.
Qed.

Lemma poll_iteration_notify inp s tweet_id tweet_text :
  fetches inp tweet_id tweet_text →
  py_truthy (JStr tweet_text) && py_truthy tweet_id
    && is_new (latest_tweet_id s) tweet_id = true →
  passes_filter keywords tweet_text →
  iteration inp s
  = {| latest_tweet_id := tweet_id;
       clock := clock s + get_time inp + post_time inp + 5;
       trace := trace s
                ++ [HttpGet twitter_user_id rapidapi_key;
                    HttpPost target_chat_id
                      (tweet_message (ist_time inp) twitter_user_id
                         tweet_id tweet_text)]
                ++ post_log inp ++ [Sleep 5] |}.
Proof.
  intros (data & Hget & Hdata & Htext & Hid) Hcond Hpass.
  unfold poll_iteration, poll_body, get_user_tweets, is_new in *.
  run_m. rewrite Hget. run_m. rewrite Hdata, Htext, Hid. run_m.
  rewrite Hcond. run_m.
  destruct keywords as [|kw kws] eqn:Hk.
  - unfold send_telegram_message, post_log, tweet_message. run_m.
    destruct (post_result inp) as [code txt|e]; run_m.
    + destruct (code =? 200)%Z; run_m; by rewrite <- !app_assoc.
    + by rewrite <- !app_assoc.
  - destruct Hpass as [?|Hany]; [done|]. run_m. rewrite Hany. run_m.
    unfold send_telegram_message, post_log, tweet_message. run_m.
    destruct (post_result inp) as [code txt|e]; run_m.
    + destruct (code =? 200)%Z; run_m; by rewrite <- !app_assoc.
    + by rewrite <- !app_assoc.
Qed.

(** The GET raises an exception of the [requests] family:
    [get_user_tweets] logs it and returns [None], and the loop body
    goes straight to its sleep. *)
Lemma poll_iteration_fetch_error inp s e :
  get_result inp = GetRaised e →
  is_request_exception e = true →
  iteration inp s
  = {| latest_tweet_id := latest_tweet_id s;
       clock := clock s + get_time inp + 5;
       trace := trace s ++ [HttpGet twitter_user_id rapidapi_key;
                            LogError (ErrorFetching twitter_user_id e);
                            Sleep 5] |}.
Proof.
  intros Hget He.
  unfold poll_iteration, poll_body, get_user_tweets.
  run_m. rewrite Hget, He. run_m.
  change (py_truthy JNull) with false. run_m.
  by rewrite <- !app_assoc.
Qed.

(** The handler of [except Exception], run in state [s']. *)
Lemma handler_run inp s' e :
  ((emit (LogError (ErrorInMonitor twitter_user_id e));;
    send_telegram_message (MonitorError twitter_user_id e) target_chat_id inp;;
    sleep 5) s').2
  = {| latest_tweet_id := latest_tweet_id s';
       clock := clock s' + post_time inp + 5;
       trace := trace s'
                ++ [LogError (ErrorInMonitor twitter_user_id e);
                    HttpPost target_chat_id (MonitorError twitter_user_id e)]
                ++ post_log inp ++ [Sleep 5] |}.
Proof.
  unfold send_telegram_message, post_log. run_m.
  destruct (post_result inp) as [code txt|e']; run_m.
  - destruct (code =? 200)%Z; run_m; by rewrite <- !app_assoc.
  - by rewrite <- !app_assoc.
Qed.

Lemma poll_body_extraction_raises inp s data e :
  get_result inp = GetJson data →
  py_truthy data = true →
  get_tweet_text data = Raise e →
  poll_body twitter_user_id rapidapi_key target_chat_id keywords inp s
  = (Raising e,
     {| latest_tweet_id := latest_tweet_id s;
        clock := clock s + get_time inp;
        trace := trace s ++ [HttpGet twitter_user_id rapidapi_key] |}).
Proof.
  intros Hget Hdata Htext. unfold poll_body, get_user_tweets.
  run_m. rewrite Hget. run_m. rewrite Hdata, Htext. by run_m.
Qed.

(** Extracting the text raises (an exception other than [KeyError]
    and [IndexError]): the handler reports it to the chat. *)
Lemma poll_iteration_extraction_raises inp s data e :
  get_result inp = GetJson data →
  py_truthy data = true →
  get_tweet_text data = Raise e →
  iteration inp s
  = {| latest_tweet_id := latest_tweet_id s;
       clock := clock s + get_time inp + post_time inp + 5;
       trace := trace s
                ++ [HttpGet twitter_user_id rapidapi_key;
                    LogError (ErrorInMonitor twitter_user_id e);
                    HttpPost target_chat_id (MonitorError twitter_user_id e)]
                ++ post_log inp ++ [Sleep 5] |}.
Proof.
  intros Hget Hdata Htext. unfold poll_iteration.
  rewrite (poll_body_extraction_raises inp s data e) by done.
  rewrite handler_run. cbn. by rewrite <- !app_assoc.
Qed.

(** Every iteration ends with the full sleep of 5, whatever happened
    before: [s1] is the state in which the sleep starts. *)
Lemma poll_iteration_ends_with_sleep inp s :
  ∃ s1, trace (iteration inp s) = trace s1 ++ [Sleep 5]
        ∧ clock (iteration inp s) = clock s1 + 5
        ∧ latest_tweet_id (iteration inp s) = latest_tweet_id s1.
Proof.
  unfold poll_iteration, poll_body, get_user_tweets, send_telegram_message.
  run_m.
  repeat (case_match; run_m; simplify_eq/=);
    by eexists (Build_wstate _ _ _).
Qed.

(** *** The loop *)

Lemma monitor_loop_never_set inputs : ∀ s,
  loop None keywords inputs s = (Running, run inputs s).
Proof. induction inputs as [|inp inputs IH]; intros s; [done|]. apply IH. Qed.

Lemma monitor_loop_cons stop_event inp inputs s :
  is_set stop_event (clock s) = false →
  loop stop_event keywords (inp :: inputs) s
  = loop stop_event keywords inputs (iteration inp s).
Proof. intros H. simpl. by rewrite H. Qed.

Lemma monitor_loop_set stop_event inputs s :
  is_set stop_event (clock s) = true →
  loop stop_event keywords inputs s = (Stopped, s).
Proof. intros H. destruct inputs; simpl; by rewrite H. Qed.

(** The loop ends only where it finds the event set. *)
Lemma monitor_loop_stopped stop_event inputs : ∀ s s',
  loop stop_event keywords inputs s = (Stopped, s') →
  is_set stop_event (clock s') = true.
Proof.
  induction inputs as [|inp inputs IH]; intros s s'; simpl;
    destruct (is_set stop_event (clock s)) eqn:Hset.
  - by intros [= <-].
  - done.
  - by intros [= <-].
  - apply IH.
Qed.

Lemma poll_all_app inputs1 inputs2 s :
  run (inputs1 ++ inputs2) s = run inputs2 (run inputs1 s).
Proof. apply fold_left_app. Qed.

Lemma monitor_tweets_never_set now inputs :
  monitor_tweets twitter_user_id rapidapi_key target_chat_id None keywords
    now inputs
  = (Running,
     run inputs
       {| latest_tweet_id := JNull; clock := now;
          trace := [LogInfo (StartedMonitoring twitter_user_id
                               target_chat_id)] |}).
Proof. unfold monitor_tweets. by rewrite monitor_loop_never_set. Qed.
End worker.

Lemma posts_app tr1 tr2 : posts (tr1 ++ tr2) = posts tr1 ++ posts tr2.
Proof.
  induction tr1 as [|[] tr1 IH]; simpl; try done. by rewrite IH.
Qed.

Lemma announced_app tr1 tr2 :
  announced (tr1 ++ tr2) = announced tr1 ++ announced tr2.
Proof.
  induction tr1 as [|[| | |chat []|] tr1 IH]; simpl; try done. by rewrite IH.
Qed.

Lemma posts_post_log inp : posts (post_log inp) = [].
Proof.
  unfold post_log. destruct (post_result inp) as [code txt|e]; [|done].
  by destruct (code =? 200)%Z.
Qed.

Lemma announced_post_log inp : announced (post_log inp) = [].
Proof.
  unfold post_log. destruct (post_result inp) as [code txt|e]; [|done].
  by destruct (code =? 200)%Z.
Qed.

Section fetch_errors.
Context {U : Unicode}.

(** A thread without keywords whose first GET fails with a connection
    error, whatever the tables of the runtime. *)
Lemma fetch_error_sample :
  poll_iteration "nasa" "k" 7 [] poll_failed fresh_thread
  = {| latest_tweet_id := JNull;
       clock := 5;
       trace := [HttpGet "nasa" "k";
                 LogError (ErrorFetching "nasa"
                             (RequestException "connection refused"));
                 Sleep 5] |}
  ∧ posts (trace (poll_iteration "nasa" "k" 7 [] poll_failed fresh_thread)) = [].
Proof. split; reflexivity. Qed.

(** C2, amended: in an iteration whose GET raises an exception of the
    [requests] family, [get_user_tweets] logs the error and the thread
    posts nothing to the chat; it sleeps 5 and goes on to the next check
    of the stop event. A thread is never ended by a fetch error: the loop
    ends only where it finds the stop event set. *)
Theorem fetch_error_logged_and_retried (twitter_user_id rapidapi_key : pystr)
    (target_chat_id : Z) (keywords : list pystr) (stop_event : option Z)
    (inp : poll_input) (inputs : list poll_input) (s : wstate) (e : exn) :
  get_result inp = GetRaised e →
  is_request_exception e = true →
  is_set stop_event (clock s) = false →
  let s' := poll_iteration twitter_user_id rapidapi_key target_chat_id
              keywords inp s in
  trace s' = trace s ++ [HttpGet twitter_user_id rapidapi_key;
                         LogError (ErrorFetching twitter_user_id e);
                         Sleep 5]
  ∧ posts (trace s') = posts (trace s)
  ∧ latest_tweet_id s' = latest_tweet_id s
  ∧ clock s' = clock s + get_time inp + 5
  ∧ monitor_loop twitter_user_id rapidapi_key target_chat_id stop_event
      keywords (inp :: inputs) s
    = monitor_loop twitter_user_id rapidapi_key target_chat_id stop_event
        keywords inputs s'
  ∧ (∀ s'', monitor_loop twitter_user_id rapidapi_key target_chat_id
              stop_event keywords (inp :: inputs) s = (Stopped, s'') →
            is_set stop_event (clock s'') = true).
Proof.
  intros Hget He Hset s'. subst s'.
  rewrite monitor_loop_cons by done.
  rewrite (poll_iteration_fetch_error _ _ _ _ inp s e Hget He). simpl.
  split_and!; try done.
  - rewrite posts_app. simpl. by rewrite app_nil_r.
  - apply monitor_loop_stopped.
Qed.
End fetch_errors.

(** Only a [TypeError] can leave a chain of subscripts once [KeyError]
    and [IndexError] are caught. *)
Lemma subscripts_raise path : ∀ v e,
  subscripts v path = Raise e →
  is_key_or_index_error e = true ∨ ∃ what, e = TypeError what.
Proof.
  induction path as [|sel path IH]; intros v e; simpl; [done|].
  destruct (subscript v sel) as [v'|e'] eqn:Hsel; simpl; [apply IH|].
  intros [= <-]. destruct sel as [k|i]; simpl in Hsel.
  - destruct v; simpl in Hsel; try (injection Hsel as <-; right; by eexists).
    destruct (assoc k d); [done|]. injection Hsel as <-. by left.
  - destruct v; simpl in Hsel;
      try (injection Hsel as <-; (by left) || (right; by eexists)).
    + destruct (s !! i); [done|]. injection Hsel as <-. by left.
    + destruct (l !! i); [done|]. injection Hsel as <-. by left.
Qed.

Lemma get_tweet_text_raises data e :
  get_tweet_text data = Raise e → ∃ what, e = TypeError what.
Proof.
  unfold get_tweet_text, try_key_index.
  destruct (subscripts data _) as [v|e'] eqn:Hsub; [done|].
  destruct (is_key_or_index_error e') eqn:He'; [done|]. intros [= <-].
  apply subscripts_raise in Hsub as [?|?]; [congruence|done].
Qed.

Lemma fetches_poll_of tweet_id tweet_text :
  fetches (poll_of tweet_id tweet_text) (JStr tweet_id) tweet_text.
Proof. eexists. split_and!; reflexivity. Qed.

Section announcing.
Context {U : Unicode}.

(** C6 fails on the decoded body [{"result": null}]: both extraction
    functions raise [TypeError], which their [except] clause does not
    catch, and the thread reports a failure to the chat instead of
    treating the poll as showing nothing new. *)
Theorem extraction_raises_on_null_result :
  get_tweet_text (JObj [(of_string "result", JNull)])
  = Raise (TypeError "'NoneType' object is not subscriptable")
  ∧ get_tweet_id (JObj [(of_string "result", JNull)])
    = Raise (TypeError "'NoneType' object is not subscriptable")
  ∧ posts (trace (poll_iteration "nasa" "k" 7 [] poll_null_result fresh_thread))
    = [(7, MonitorError "nasa"
             (TypeError "'NoneType' object is not subscriptable"))].
Proof. split_and!; reflexivity. Qed.

(** C10: the first tweet a thread fetches while its marker is still
    unset is announced, whenever its text and id are non-empty and the
    keyword filter lets the text through; the marker becomes its id. *)
Theorem first_fetch_announced (twitter_user_id rapidapi_key : pystr)
    (target_chat_id : Z) (keywords : list pystr) (inp : poll_input)
    (s : wstate) (tweet_id : json) (tweet_text : pystr) :
  latest_tweet_id s = JNull →
  fetches inp tweet_id tweet_text →
  tweet_text ≠ [] →
  py_truthy tweet_id = true →
  passes_filter keywords tweet_text →
  let s' := poll_iteration twitter_user_id rapidapi_key target_chat_id
              keywords inp s in
  latest_tweet_id s' = tweet_id
  ∧ posts (trace s')
    = posts (trace s)
      ++ [(target_chat_id,
           tweet_message (ist_time inp) twitter_user_id tweet_id tweet_text)]
  ∧ trace s'
    = trace s
      ++ [HttpGet twitter_user_id rapidapi_key;
          HttpPost target_chat_id
            (tweet_message (ist_time inp) twitter_user_id tweet_id tweet_text)]
      ++ post_log inp ++ [Sleep 5].
Proof.
  intros Hlatest Hfetch Htext Hid Hpass s'. subst s'.
  rewrite (poll_iteration_notify _ _ _ _ inp s tweet_id tweet_text); try done.
  - simpl. split_and!; try done.
    rewrite posts_app. simpl. by rewrite posts_app, posts_post_log.
  - unfold is_new. rewrite Hlatest, Hid. by destruct tweet_text.
Qed.

(** The two texts of the example, filtered by the keyword "launch". *)
Lemma occurs_big_launch_today :
  occurs_ignoring_case "launch" "Big Launch Today".
Proof. by apply contains_lower_spec. Qed.

Lemma not_occurs_nothing_interesting :
  ∀ keyword, keyword ∈ [of_string "launch"] →
             ¬ occurs_ignoring_case keyword "Nothing interesting".
Proof.
  intros keyword ->%list_elem_of_singleton Hocc.
  apply contains_lower_spec in Hocc. by vm_compute in Hocc.
Qed.

(** C4: with a non-empty keyword list, a tweet in whose text no keyword
    occurs as a substring, letter case ignored, is not announced and the
    marker keeps its value, and a new tweet in whose text a keyword
    occurs is announced. Letter case is ignored by mapping the keyword
    and the text to lower case, with the runtime's tables; for ASCII
    keywords and texts this says that a piece of the text reads like the
    keyword up to the case of its letters. With the keyword "launch" the
    text "Big Launch Today" is announced and "Nothing interesting" is
    not; with the empty keyword list every text passes the filter, so
    every new non-empty tweet is announced. *)
Theorem keyword_filter (twitter_user_id rapidapi_key : pystr)
    (target_chat_id : Z) :
  (∀ keywords inp s tweet_id tweet_text,
     keywords ≠ [] →
     fetches inp tweet_id tweet_text →
     (∀ keyword, keyword ∈ keywords →
                 ¬ occurs_ignoring_case keyword tweet_text) →
     let s' := poll_iteration twitter_user_id rapidapi_key target_chat_id
                 keywords inp s in
     posts (trace s') = posts (trace s)
     ∧ latest_tweet_id s' = latest_tweet_id s)
  ∧ (∀ keywords inp s tweet_id tweet_text keyword,
       fetches inp tweet_id tweet_text →
       tweet_text ≠ [] →
       py_truthy tweet_id = true →
       is_new (latest_tweet_id s) tweet_id = true →
       keyword ∈ keywords →
       occurs_ignoring_case keyword tweet_text →
       let s' := poll_iteration twitter_user_id rapidapi_key target_chat_id
                   keywords inp s in
       posts (trace s')
       = posts (trace s)
         ++ [(target_chat_id,
              tweet_message (ist_time inp) twitter_user_id tweet_id tweet_text)]
       ∧ latest_tweet_id s' = tweet_id)
  ∧ (∀ keyword text,
       forallb is_ascii keyword = true → forallb is_ascii text = true →
       occurs_ignoring_case keyword text
       ↔ occurs_up_to_ascii_case keyword text)
  ∧ (let s' := poll_iteration twitter_user_id rapidapi_key target_chat_id
                 ["launch" : pystr] (poll_of "1900" "Big Launch Today")
                 fresh_thread in
     posts (trace s')
     = [(target_chat_id,
         tweet_message (ist_time (poll_of "1900" "Big Launch Today"))
           twitter_user_id (JStr "1900") "Big Launch Today")]
     ∧ latest_tweet_id s' = JStr "1900")
  ∧ (let s' := poll_iteration twitter_user_id rapidapi_key target_chat_id
                 ["launch" : pystr] (poll_of "1900" "Nothing interesting")
                 fresh_thread in
     posts (trace s') = []
     ∧ latest_tweet_id s' = latest_tweet_id fresh_thread)
  ∧ (∀ tweet_text, passes_filter [] tweet_text)
  ∧ (∀ inp s tweet_id tweet_text,
       fetches inp tweet_id tweet_text →
       tweet_text ≠ [] →
       py_truthy tweet_id = true →
       is_new (latest_tweet_id s) tweet_id = true →
       let s' := poll_iteration twitter_user_id rapidapi_key target_chat_id
                   [] inp s in
       posts (trace s')
       = posts (trace s)
         ++ [(target_chat_id,
              tweet_message (ist_time inp) twitter_user_id tweet_id
                tweet_text)]
       ∧ latest_tweet_id s' = tweet_id).
Proof.
  assert (Hnotify : ∀ keywords inp s tweet_id tweet_text,
    fetches inp tweet_id tweet_text →
    tweet_text ≠ [] →
    py_truthy tweet_id = true →
    is_new (latest_tweet_id s) tweet_id = true →
    passes_filter keywords tweet_text →
    let s' := poll_iteration twitter_user_id rapidapi_key target_chat_id
                keywords inp s in
    posts (trace s')
    = posts (trace s)
      ++ [(target_chat_id,
           tweet_message (ist_time inp) twitter_user_id tweet_id tweet_text)]
    ∧ latest_tweet_id s' = tweet_id).
  { intros keywords inp s tweet_id tweet_text Hfetch Htext Hid Hnew Hpass s'.
    subst s'.
    rewrite (poll_iteration_notify _ _ _ _ inp s tweet_id tweet_text);
      try done.
    - simpl. split; [|done].
      rewrite posts_app. simpl. by rewrite posts_app, posts_post_log.
    - rewrite Hid, Hnew. by destruct tweet_text. }
  split_and!.
  - intros keywords inp s tweet_id tweet_text Hne Hfetch Hnone s'. subst s'.
    assert (Hany : any_keyword keywords tweet_text = false).
    { apply not_true_iff_false. intros (k & Hk & Hocc)%any_keyword_spec.
      by apply (Hnone k). }
    destruct (py_truthy (JStr tweet_text) && py_truthy tweet_id
              && is_new (latest_tweet_id s) tweet_id) eqn:Hcond.
    + rewrite (poll_iteration_filtered _ _ _ _ inp s tweet_id tweet_text)
        by done.
      simpl. split; [|done]. rewrite posts_app. simpl. by rewrite app_nil_r.
    + rewrite (poll_iteration_seen _ _ _ _ inp s tweet_id tweet_text) by done.
      simpl. split; [|done]. rewrite posts_app. simpl. by rewrite app_nil_r.
  - intros keywords inp s tweet_id tweet_text keyword Hfetch Htext Hid Hnew
      Hin Hocc.
    apply Hnotify; try done. right. apply any_keyword_spec. by exists keyword.
  - apply occurs_ignoring_case_ascii.
  - split; reflexivity.
  - split; reflexivity.
  - intros tweet_text. by left.
  - intros inp s tweet_id tweet_text Hfetch Htext Hid Hnew.
    apply Hnotify; try done. by left.
Qed.

(** C7, amended: the stop event is read only at the top of the loop and
    the sleep is not interruptible. If the event is set while the thread
    is in its sleep of 5, the thread finishes the whole sleep and stops
    at the check that follows it: [s1] is the state in which the sleep
    starts, before the event is set, and the thread stops 5 later. *)
Theorem sleep_not_interruptible (twitter_user_id rapidapi_key : pystr)
    (target_chat_id : Z) (keywords : list pystr) (t : Z)
    (inp : poll_input) (inputs : list poll_input) (s : wstate) :
  let s' := poll_iteration twitter_user_id rapidapi_key target_chat_id
              keywords inp s in
  is_set (Some t) (clock s) = false →
  clock s' - 5 < t ≤ clock s' →
  monitor_loop twitter_user_id rapidapi_key target_chat_id (Some t) keywords
    (inp :: inputs) s
  = (Stopped, s')
  ∧ ∃ s1, trace s' = trace s1 ++ [Sleep 5]
          ∧ clock s1 < t
          ∧ clock s' = clock s1 + 5.
Proof.
  intros s' Hrun [Hlo Hhi].
  rewrite monitor_loop_cons by done. fold s'. split.
  - apply monitor_loop_set. simpl. by apply Z.leb_le.
  - destruct (poll_iteration_ends_with_sleep twitter_user_id rapidapi_key
                target_chat_id keywords inp s) as (s1 & Htr & Hclock & _).
    fold s' in Htr, Hclock. exists s1. split_and!; [done|lia|done].
Qed.

(** A thread started at time 0 whose first GET fails at once and whose
    stop event is set at time 1, whatever the tables of the runtime. *)
Lemma stop_during_sleep_sample :
  monitor_tweets "nasa" "k" 7 (Some 1) [] 0 [poll_failed; poll_failed]
  = (Stopped,
     {| latest_tweet_id := JNull;
        clock := 5;
        trace := [LogInfo (StartedMonitoring "nasa" 7);
                  HttpGet "nasa" "k";
                  LogError (ErrorFetching "nasa"
                              (RequestException "connection refused"));
                  Sleep 5;
                  LogInfo (StoppedMonitoring "nasa" 7)] |}).
Proof. reflexivity. Qed.
End announcing.

Section sample_iterations.
#[local] Existing Instance ascii_tables.

(** C2, as stated, fails: in an iteration whose GET fails with a
    connection error the thread logs the error and sleeps; it posts
    nothing to the chat. *)
Lemma fetch_error_not_delivered :
  poll_iteration "nasa" "k" 7 [] poll_failed fresh_thread
  = {| latest_tweet_id := JNull;
       clock := 5;
       trace := [HttpGet "nasa" "k";
                 LogError (ErrorFetching "nasa"
                             (RequestException "connection refused"));
                 Sleep 5] |}
  ∧ posts (trace (poll_iteration "nasa" "k" 7 [] poll_failed fresh_thread)) = [].
Proof. apply fetch_error_sample. Qed.

Lemma fetch_error_logged_and_retried_witness :
  get_result poll_failed = GetRaised (RequestException "connection refused")
  ∧ is_set None (clock fresh_thread) = false
  ∧ posts (trace (poll_iteration "nasa" "k" 7 [] poll_failed fresh_thread)) = []
  ∧ monitor_loop "nasa" "k" 7 None [] [poll_failed; poll_failed] fresh_thread
    = monitor_loop "nasa" "k" 7 None [] [poll_failed]
        (poll_iteration "nasa" "k" 7 [] poll_failed fresh_thread).
Proof.
  split; [reflexivity|]. split; [reflexivity|].
  destruct (fetch_error_logged_and_retried "nasa" "k" 7 [] None poll_failed
              [poll_failed] fresh_thread
              (RequestException "connection refused")
              eq_refl eq_refl eq_refl)
    as (_ & Hposts & _ & _ & Hloop & _).
  split; [exact Hposts|exact Hloop].
Defined.

Lemma first_fetch_announced_witness :
  latest_tweet_id fresh_thread = JNull
  ∧ of_string "Big Launch Today" ≠ []
  ∧ passes_filter ["launch" : pystr] "Big Launch Today"
  ∧ latest_tweet_id
      (poll_iteration "nasa" "k" 7 ["launch" : pystr]
         (poll_of "1900" "Big Launch Today") fresh_thread)
    = JStr "1900".
Proof.
  assert (Hpass : passes_filter ["launch" : pystr] "Big Launch Today")
    by (by right).
  split; [reflexivity|]. split; [discriminate|]. split; [exact Hpass|].
  apply (first_fetch_announced "nasa" "k" 7 ["launch" : pystr]
           (poll_of "1900" "Big Launch Today") fresh_thread
           (JStr "1900") "Big Launch Today" eq_refl
           (fetches_poll_of _ _)); done.
Defined.

Lemma keyword_filter_witness :
  [of_string "launch"] ≠ []
  ∧ (∀ keyword, keyword ∈ [of_string "launch"] →
                ¬ occurs_ignoring_case keyword "Nothing interesting")
  ∧ posts (trace (poll_iteration "nasa" "k" 7 ["launch" : pystr]
                    (poll_of "1900" "Nothing interesting") fresh_thread))
    = posts (trace fresh_thread)
  ∧ latest_tweet_id (poll_iteration "nasa" "k" 7 ["launch" : pystr]
                       (poll_of "1900" "Nothing interesting") fresh_thread)
    = latest_tweet_id fresh_thread.
Proof.
  split; [done|]. split; [apply not_occurs_nothing_interesting|].
  destruct (keyword_filter "nasa" "k" 7) as (Hskip & _).
  apply (Hskip ["launch" : pystr] (poll_of "1900" "Nothing interesting")
           fresh_thread (JStr "1900") "Nothing interesting").
  - done.
  - apply fetches_poll_of.
  - apply not_occurs_nothing_interesting.
Defined.

(** C7, as stated, fails: a thread started at time 0 whose first GET
    fails at once sleeps from 0 to 5; the stop event is set at time 1,
    in the middle of that sleep, and the thread stops at time 5, when the
    sleep is over. *)
Lemma stop_during_sleep_waits :
  monitor_tweets "nasa" "k" 7 (Some 1) [] 0 [poll_failed; poll_failed]
  = (Stopped,
     {| latest_tweet_id := JNull;
        clock := 5;
        trace := [LogInfo (StartedMonitoring "nasa" 7);
                  HttpGet "nasa" "k";
                  LogError (ErrorFetching "nasa"
                              (RequestException "connection refused"));
                  Sleep 5;
                  LogInfo (StoppedMonitoring "nasa" 7)] |}).
Proof. apply stop_during_sleep_sample. Qed.

Lemma sleep_not_interruptible_witness :
  is_set (Some 1) (clock fresh_thread) = false
  ∧ monitor_loop "nasa" "k" 7 (Some 1) [] [poll_failed; poll_failed] fresh_thread
    = (Stopped, poll_iteration "nasa" "k" 7 [] poll_failed fresh_thread)
  ∧ clock (poll_iteration "nasa" "k" 7 [] poll_failed fresh_thread) = 5.
Proof.
  split; [reflexivity|]. split; [|reflexivity].
  apply (sleep_not_interruptible "nasa" "k" 7 [] 1 poll_failed [poll_failed]
           fresh_thread eq_refl).
  vm_compute. split; [reflexivity|discriminate].
Defined.
End sample_iterations.

(** ** De-duplication *)

Lemma py_eq_str_inv i v : py_eq (JStr i) v = true → v = JStr i.
Proof. destruct v; simpl; try done. by intros ->%bool_decide_eq_true. Qed.

Lemma fetches_functional inp tweet_id tweet_id' tweet_text tweet_text' :
  fetches inp tweet_id tweet_text → fetches inp tweet_id' tweet_text' →
  tweet_id = tweet_id' ∧ tweet_text = tweet_text'.
Proof.
  intros (d & Hd & _ & Ht & Hi) (d' & Hd' & _ & Ht' & Hi').
  rewrite Hd in Hd'. injection Hd' as <-. split; congruence.
Qed.

Section dedup.
Context {U : Unicode}.
Context (id_lt : pystr → pystr → Prop) `{!StrictOrder id_lt}.
Variables (twitter_user_id rapidapi_key : pystr) (target_chat_id : Z).
Variable keywords : list pystr.
Implicit Types (s : wstate) (inp : poll_input) (polls : list poll_input)
               (items : list (pystr * pystr)) (ids : list pystr).

Local Abbreviation iteration :=
  (poll_iteration twitter_user_id rapidapi_key target_chat_id keywords).
Local Abbreviation run :=
  (poll_all twitter_user_id rapidapi_key target_chat_id keywords).
Local Abbreviation id_le := (λ a b : pystr, a = b ∨ id_lt a b).
Local Abbreviation fetched :=
  (λ inp (it : pystr * pystr), fetches inp (JStr it.1) it.2).
Local Abbreviation admissible :=
  (λ it : pystr * pystr,
     it.1 ≠ [] ∧ it.2 ≠ [] ∧ passes_filter keywords it.2).

(** One iteration on a non-empty tweet that passes the filter: it is
    announced exactly when its id differs from the marker, and the
    marker is its id afterwards. *)
Lemma poll_iteration_admissible inp s tweet_id tweet_text :
  fetches inp (JStr tweet_id) tweet_text →
  tweet_id ≠ [] → tweet_text ≠ [] →
  passes_filter keywords tweet_text →
  announced (trace (iteration inp s))
  = (announced (trace s)
     ++ if is_new (latest_tweet_id s) (JStr tweet_id)
        then [JStr tweet_id] else [])
  ∧ latest_tweet_id (iteration inp s) = JStr tweet_id
  ∧ latest_tweet_id (iteration inp s)
    = if is_new (latest_tweet_id s) (JStr tweet_id)
      then JStr tweet_id else latest_tweet_id s.
Proof.
  intros Hfetch Hid Htext Hpass.
  assert (Hcond : py_truthy (JStr tweet_text) && py_truthy (JStr tweet_id)
                  && is_new (latest_tweet_id s) (JStr tweet_id)
                  = is_new (latest_tweet_id s) (JStr tweet_id)).
  { simpl. destruct tweet_text; [done|]. by destruct tweet_id. }
  destruct (is_new (latest_tweet_id s) (JStr tweet_id)) eqn:Hnew.
  - rewrite (poll_iteration_notify _ _ _ _ inp s (JStr tweet_id) tweet_text)
      by (done || by rewrite Hnew).
    simpl. split; [|done]. rewrite announced_app. simpl.
    by rewrite announced_app, announced_post_log.
  - rewrite (poll_iteration_seen _ _ _ _ inp s (JStr tweet_id) tweet_text)
      by (done || by rewrite Hnew).
    simpl. split; [rewrite announced_app; simpl; by rewrite !app_nil_r|].
    split; [|done].
    unfold is_new in Hnew. apply orb_false_iff in Hnew as [_ Hnew].
    apply negb_false_iff in Hnew. by apply py_eq_str_inv.
Qed.

(** The announcements of a run are the changes of the polled id. *)
Lemma poll_all_announced polls : ∀ items s,
  Forall2 fetched polls items →
  Forall admissible items →
  announced (trace (run polls s))
  = (announced (trace s) ++ (JStr <$> changes (latest_tweet_id s) items.*1)).
Proof.
  induction polls as [|inp polls IH]; intros items s Hfetch Hadm.
  - apply Forall2_nil_inv_l in Hfetch as ->. simpl. by rewrite app_nil_r.
  - apply Forall2_cons_inv_l in Hfetch as ([i t] & items' & Hf & Hfetch & ->).
    apply Forall_cons in Hadm as [(Hi & Ht & Hpass) Hadm].
    simpl in *. unfold poll_all in *. simpl.
    rewrite (IH items' _ Hfetch Hadm).
    destruct (poll_iteration_admissible inp s i t Hf Hi Ht Hpass)
      as (-> & _ & ->).
    destruct (is_new (latest_tweet_id s) (JStr i)); simpl.
    + by rewrite <- app_assoc.
    + by rewrite app_nil_r.
Qed.

(** In a weakly increasing sequence, every id other than the marker
    changes the polled id exactly once. *)
Lemma changes_sorted ids : ∀ l,
  StronglySorted id_le ids → Forall (id_le l) ids →
  NoDup (changes (JStr l) ids)
  ∧ ∀ x, x ∈ changes (JStr l) ids ↔ x ∈ ids ∧ x ≠ l.
Proof.
  induction ids as [|i ids IH]; intros l Hsorted Hbound; simpl.
  - split; [constructor|]. intros x. split; [by intros ?%elem_of_nil|].
    by intros [?%elem_of_nil _].
  - apply StronglySorted_inv in Hsorted as [Hsorted Hhead].
    apply Forall_cons in Hbound as [Hli Hbound].
    unfold is_new. simpl. case_bool_decide as Hne; [subst i|]; simpl.
    + destruct (IH l Hsorted Hbound) as [Hnd Hin]. split; [done|].
      intros x. rewrite Hin, elem_of_cons. split.
      * intros [? ?]. auto.
      * intros [[?|?] ?]; [done|auto].
    + destruct (IH i Hsorted Hhead) as [Hnd Hin]. split.
      * constructor; [|done]. rewrite Hin. by intros [_ ?].
      * intros x. rewrite !elem_of_cons, Hin. split.
        -- intros [->|[Hx Hxi]]; [by auto|]. split; [by auto|].
           intros ->. destruct Hli as [?|Hli]; [done|].
           rewrite Forall_forall in Hhead.
           destruct (Hhead _ Hx) as [?|Hil]; [done|].
           by apply (irreflexivity id_lt l); etrans.
        -- intros [[->|Hx] Hxl]; [by left|].
           destruct (decide (x = i)) as [->|]; [by left|by right].
Qed.

Lemma changes_sorted_unset ids :
  StronglySorted id_le ids →
  NoDup (changes JNull ids) ∧ ∀ x, x ∈ changes JNull ids ↔ x ∈ ids.
Proof.
  destruct ids as [|i ids]; intros Hsorted; simpl.
  - split; [constructor|done].
  - apply StronglySorted_inv in Hsorted as [Hsorted Hhead].
    destruct (changes_sorted ids i Hsorted Hhead) as [Hnd Hin]. split.
    + constructor; [|done]. rewrite Hin. by intros [_ ?].
    + intros x. rewrite !elem_of_cons, Hin.
      destruct (decide (x = i)) as [->|Hne]; [split; auto|].
      split; [intros [?|[? _]]; auto|]. intros [?|?]; [done|auto].
Qed.
End dedup.

Section announcements.
Context {U : Unicode}.

(** A thread with the keyword "launch" that polls the tweet 1900,
    "Nothing interesting", whatever the tables of the runtime. *)
Lemma filtered_id_sample :
  monitor_tweets "nasa" "k" 7 None ["launch" : pystr] 0
    [poll_of "1900" "Nothing interesting"]
  = (Running,
     {| latest_tweet_id := JNull;
        clock := 5;
        trace := [LogInfo (StartedMonitoring "nasa" 7);
                  HttpGet "nasa" "k";
                  LogInfo (SkippedByKeywordFilter (JStr "1900"));
                  Sleep 5] |})
  ∧ announced
      (trace (monitor_tweets "nasa" "k" 7 None ["launch" : pystr] 0
                [poll_of "1900" "Nothing interesting"]).2) = [].
Proof. split; reflexivity. Qed.

(** C3, amended: let a thread that is never stopped poll a sequence of
    tweets with non-empty id and text, each of which passes the thread's
    keyword filter, whose ids increase strictly from one tweet to the
    next distinct one (the same tweet may be polled again any number of
    times). Then every distinct id is announced exactly once, nothing
    else is announced, and after the iteration that polled a tweet the
    marker is that tweet's id. The order on ids is any strict order. *)
Theorem each_id_announced_once (id_lt : pystr → pystr → Prop)
    `{!StrictOrder id_lt} (twitter_user_id rapidapi_key : pystr)
    (target_chat_id : Z) (keywords : list pystr) (now : Z)
    (polls : list poll_input) (items : list (pystr * pystr)) :
  Forall2 (λ inp it, fetches inp (JStr it.1) it.2) polls items →
  Forall (λ it, it.1 ≠ [] ∧ it.2 ≠ [] ∧ passes_filter keywords it.2) items →
  Sorted (λ a b, a = b ∨ id_lt a b) items.*1 →
  let thread := monitor_tweets twitter_user_id rapidapi_key target_chat_id
                  None keywords now in
  ∃ s notified,
    thread polls = (Running, s)
    ∧ announced (trace s) = JStr <$> notified
    ∧ NoDup notified
    ∧ (∀ x, x ∈ notified ↔ x ∈ items.*1)
    ∧ (∀ polls1 inp polls2 tweet_id tweet_text,
         polls = (polls1 ++ inp :: polls2) →
         fetches inp (JStr tweet_id) tweet_text →
         latest_tweet_id (thread (polls1 ++ [inp])).2 = JStr tweet_id).
Proof.
  intros Hfetch Hadm Hsorted thread. subst thread.
  apply Sorted_StronglySorted in Hsorted.
  2:{ intros a b c [->|Hab] [->|Hbc]; auto. right. by etrans. }
  destruct (changes_sorted_unset id_lt items.*1 Hsorted) as [Hnd Hin].
  eexists _, (changes JNull items.*1).
  split; [apply monitor_tweets_never_set|]. split_and!; try done.
  - by rewrite (poll_all_announced _ _ _ keywords polls items).
  - intros polls1 inp polls2 tweet_id tweet_text -> Hinp.
    rewrite monitor_tweets_never_set. simpl. rewrite poll_all_app. simpl.
    apply Forall2_app_inv_l in Hfetch
      as (items1 & items2' & _ & Hfetch & ->).
    apply Forall2_cons_inv_l in Hfetch as ([i t] & items2 & Hf & _ & ->).
    apply Forall_app in Hadm as [_ Hadm].
    apply Forall_cons in Hadm as [(Hi & Ht & Hpass) _]. simpl in *.
    destruct (fetches_functional _ _ _ _ _ Hinp Hf) as [[= ->] ->].
    by destruct (poll_iteration_admissible twitter_user_id rapidapi_key
                   target_chat_id keywords inp
                   (poll_all twitter_user_id rapidapi_key target_chat_id
                      keywords polls1
                      {| latest_tweet_id := JNull; clock := now;
                         trace := [LogInfo (StartedMonitoring twitter_user_id
                                              target_chat_id)] |})
                   i t Hf Hi Ht Hpass) as (_ & ? & _).
Qed.
End announcements.

#[local] Instance id_before_strict : StrictOrder id_before.
Proof.
  split.
  - intros a. unfold complement, id_before. lia.
  - intros a b c. unfold id_before. lia.
Qed.

Section sample_runs.
#[local] Existing Instance ascii_tables.

(** C3, as stated, fails: a thread with the keyword "launch" polls the
    tweet 1900, "Nothing interesting", the only item of a strictly
    increasing sequence; the id triggers no announcement and the marker
    stays unset. *)
Lemma filtered_id_not_announced :
  monitor_tweets "nasa" "k" 7 None ["launch" : pystr] 0
    [poll_of "1900" "Nothing interesting"]
  = (Running,
     {| latest_tweet_id := JNull;
        clock := 5;
        trace := [LogInfo (StartedMonitoring "nasa" 7);
                  HttpGet "nasa" "k";
                  LogInfo (SkippedByKeywordFilter (JStr "1900"));
                  Sleep 5] |})
  ∧ announced
      (trace (monitor_tweets "nasa" "k" 7 None ["launch" : pystr] 0
                [poll_of "1900" "Nothing interesting"]).2) = [].
Proof. apply filtered_id_sample. Qed.

Lemma each_id_announced_once_witness :
  let polls := [poll_of "1900" "first"; poll_of "1900" "first";
                poll_of "1901" "second"; poll_of "1905" "third"] in
  let ids : list pystr := ["1900" : pystr; "1900" : pystr; "1901" : pystr;
                           "1905" : pystr] in
  Sorted (λ a b, a = b ∨ id_before a b) ids
  ∧ ∃ s notified,
      monitor_tweets "nasa" "k" 7 None [] 0 polls = (Running, s)
      ∧ announced (trace s) = JStr <$> notified
      ∧ NoDup notified
      ∧ (∀ x, x ∈ notified ↔ x ∈ ids).
Proof.
  intros polls ids.
  assert (Hsorted : Sorted (λ a b, a = b ∨ id_before a b) ids).
  { repeat constructor; right; unfold id_before; vm_compute; reflexivity. }
  split; [exact Hsorted|].
  destruct (each_id_announced_once id_before "nasa" "k" 7 [] 0 polls
              [("1900" : pystr, "first" : pystr);
               ("1900" : pystr, "first" : pystr);
               ("1901" : pystr, "second" : pystr);
               ("1905" : pystr, "third" : pystr)])
    as (s & notified & Hrun & Hann & Hnd & Hin & _).
  - repeat constructor; apply fetches_poll_of.
  - repeat constructor; done.
  - exact Hsorted.
  - by exists s, notified.
Defined.
End sample_runs.

(** ** The registry *)

Section registry.
Implicit Types (st : bot_state) (key : Z * pystr) (ev : nat).

Lemma stop_all_loop_spec chat_id keys : ∀ st count,
  NoDup keys →
  (∀ key, key ∈ keys → key.1 = chat_id → is_Some (monitor_flags st !! key)) →
  ∃ st',
    stop_all_loop chat_id keys st count
    = (Ok (count + length (filter (λ key, key.1 = chat_id) keys))%nat, st')
    ∧ (∀ key, key ∈ keys → key.1 = chat_id → monitor_flags st' !! key = None)
    ∧ (∀ key, ¬ (key ∈ keys ∧ key.1 = chat_id) →
              monitor_flags st' !! key = monitor_flags st !! key)
    ∧ (∀ ev, ev ∈ signalled st' ↔
             ev ∈ signalled st
             ∨ ∃ key, key ∈ keys ∧ key.1 = chat_id
                      ∧ monitor_flags st !! key = Some ev)
    ∧ next_event st' = next_event st
    ∧ threads st' = threads st
    ∧ replies st' = replies st.
Proof.
  induction keys as [|k keys IH]; intros st count Hnd Hin; simpl.
  - exists st. split_and!; try done.
    + do 2 f_equal. lia.
    + intros key H. by apply elem_of_nil in H.
    + intros ev. split; [by left|]. intros [?|(key & H & _)]; [done|].
      by apply elem_of_nil in H.
  - apply NoDup_cons in Hnd as [Hk Hnd].
    destruct (Z.eqb_spec k.1 chat_id) as [Heq|Hne].
    + destruct (Hin k) as [ev Hev]; [by left|done|]. rewrite Hev.
      destruct (IH (flags_del k (event_set ev st)) (S count) Hnd)
        as (st' & Hrun & Hgone & Hkept & Hsig & Hnext & Hthr & Hrep).
      { intros key Hkey Hc. simpl.
        rewrite lookup_delete_ne; [|by intros ->].
        apply Hin; [by right|done]. }
      exists st'. rewrite Hrun. split_and!; try done.
      * rewrite filter_cons_True by done. simpl. do 2 f_equal. lia.
      * intros key Hkey Hc.
        apply elem_of_cons in Hkey as [->|Hkey]; [|by apply Hgone].
        rewrite Hkept; [apply lookup_delete_eq|]. by intros [? _].
      * intros key Hkey. rewrite Hkept.
        -- simpl. apply lookup_delete_ne. intros ->. apply Hkey.
           split; [by left|done].
        -- intros [? ?]. apply Hkey. split; [by right|done].
      * intros ev'. rewrite Hsig. simpl. split.
        -- intros [Hs|(key & Hkey & Hc & Hl)].
           ++ apply elem_of_union in Hs as [Hs|Hs]; [|by left].
              apply elem_of_singleton in Hs as ->. right. exists k.
              split_and!; [by left|done|done].
           ++ right. exists key. split_and!; [by right|done|].
              rewrite lookup_delete_ne in Hl; [done|by intros ->].
        -- intros [Hs|(key & Hkey & Hc & Hl)].
           ++ left. apply elem_of_union. by right.
           ++ apply elem_of_cons in Hkey as [->|Hkey].
              ** left. rewrite Hev in Hl. injection Hl as ->.
                 apply elem_of_union. left. by apply elem_of_singleton.
              ** right. exists key. split_and!; [done|done|].
                 rewrite lookup_delete_ne; [done|by intros ->].
    + destruct (IH st count Hnd)
        as (st' & Hrun & Hgone & Hkept & Hsig & Hnext & Hthr & Hrep).
      { intros key Hkey Hc. apply Hin; [by right|done]. }
      exists st'. rewrite Hrun. split_and!; try done.
      * by rewrite filter_cons_False.
      * intros key Hkey Hc.
        apply elem_of_cons in Hkey as [->|Hkey]; [done|by apply Hgone].
      * intros key Hkey. apply Hkept. intros [? ?]. apply Hkey.
        split; [by right|done].
      * intros ev'. rewrite Hsig. split.
        -- intros [?|(key & ? & ? & ?)]; [by left|]. right. exists key.
           split_and!; [by right|done|done].
        -- intros [?|(key & Hkey & ? & ?)]; [by left|]. right. exists key.
           apply elem_of_cons in Hkey as [->|?]; done.
Qed.

Lemma flags_keys_NoDup st : NoDup (flags_keys st).
Proof. apply NoDup_fst_map_to_list. Qed.

Lemma elem_of_flags_keys st key :
  key ∈ flags_keys st ↔ is_Some (monitor_flags st !! key).
Proof.
  unfold flags_keys. rewrite list_elem_of_fmap. split.
  - intros ([k ev] & -> & Hin). apply elem_of_map_to_list in Hin. by exists ev.
  - intros [ev Hev]. exists (key, ev). split; [done|].
    by apply elem_of_map_to_list.
Qed.

Lemma length_filter_flags_keys (E : Z) (l : list ((Z * pystr) * nat)) :
  length (filter (λ key : Z * pystr, key.1 = E) l.*1)
  = length (filter (λ kv : (Z * pystr) * nat, kv.1.1 = E) l).
Proof.
  induction l as [|[k v] l IH]; [done|]. csimpl.
  destruct (decide (k.1 = E)) as [HP|HP].
  - rewrite !filter_cons_True by done. simpl. by rewrite IH.
  - rewrite !filter_cons_False by done. done.
Qed.

Lemma count_flags_keys st (E : Z) :
  length (filter (λ key : Z * pystr, key.1 = E) (flags_keys st))
  = size (filter (λ kv : (Z * pystr) * nat, kv.1.1 = E) (monitor_flags st)).
Proof.
  unfold flags_keys. rewrite length_filter_flags_keys.
  rewrite map_filter_alt, map_size_list_to_map; [done|].
  eapply NoDup_fmap_fst.
  - intros k x y Hx Hy.
    apply list_elem_of_filter in Hx as [_ Hx], Hy as [_ Hy].
    apply elem_of_map_to_list in Hx, Hy. congruence.
  - apply NoDup_filter, NoDup_map_to_list.
Qed.

Lemma events_allocated_initial : events_allocated initial_state.
Proof.
  split_and!; simpl.
  - intros key ev H. by rewrite lookup_empty in H.
  - intros ev H. by apply not_elem_of_empty in H.
  - constructor.
Qed.

Lemma reply_and_return_run chat r out state st :
  ∃ st',
    reply_and_return chat r out state st = (handler_result out state, st')
    ∧ monitor_flags st' = monitor_flags st
    ∧ next_event st' = next_event st
    ∧ signalled st' = signalled st
    ∧ threads st' = threads st
    ∧ replies st' = replies st ++ sent_replies out chat r.
Proof.
  destruct out as [|e]; (eexists; split; [reflexivity|]); simpl;
    by rewrite ?app_nil_r.
Qed.

Lemma events_allocated_reply chat r out state st :
  events_allocated st →
  events_allocated (reply_and_return chat r out state st).2.
Proof. by destruct out. Qed.
End registry.

Section registry_handlers.
Context {U : Unicode}.
Implicit Types (st : bot_state) (key : Z * pystr) (ev : nat).

Lemma events_allocated_receive_keywords key_env chat text out ud st :
  events_allocated st →
  events_allocated (receive_keywords key_env chat text out ud st).2.
Proof.
  intros (Hflags & Hsig & Hthr). unfold receive_keywords. simpl.
  destruct (ud_twitter_user_id ud) as [user|]; simpl; [|done].
  destruct out as [|e]; simpl; split_and!; simpl.
  - intros key ev. rewrite lookup_insert. case_decide.
    + intros [= <-]. lia.
    + intros H'. apply Hflags in H'. lia.
  - intros ev H'. apply Hsig in H'. lia.
  - apply Forall_app. split.
    + eapply Forall_impl; [exact Hthr|]. simpl. intros. lia.
    + constructor; [simpl; lia|constructor].
  - intros key ev. rewrite lookup_insert. case_decide.
    + intros [= <-]. lia.
    + intros H'. apply Hflags in H'. lia.
  - intros ev H'. apply Hsig in H'. lia.
  - eapply Forall_impl; [exact Hthr|]. simpl. intros. lia.
Qed.

Lemma events_allocated_receive_stop chat text out st :
  events_allocated st → events_allocated (receive_stop chat text out st).2.
Proof.
  intros (Hflags & Hsig & Hthr). unfold receive_stop.
  case_bool_decide.
  - destruct (stop_all_loop_spec chat (flags_keys st) st 0)
      as (st' & Hrun & Hgone & Hkept & Hsig' & Hnext & Hthr' & Hrep).
    { apply flags_keys_NoDup. }
    { intros key Hkey _. by apply elem_of_flags_keys. }
    rewrite Hrun. apply events_allocated_reply.
    unfold events_allocated. rewrite Hnext, Hthr'. split_and!; [| |done].
    + intros key ev Hl.
      destruct (decide (key ∈ flags_keys st ∧ key.1 = chat)) as [[? ?]|Hn].
      * by rewrite Hgone in Hl.
      * rewrite Hkept in Hl by done. eauto.
    + intros ev [?|(key & _ & _ & Hl)]%Hsig'; eauto.
  - destruct (monitor_flags st !! _) as [ev|] eqn:Hl;
      apply events_allocated_reply; [|done].
    unfold events_allocated. simpl. split_and!; [| |done].
    + intros key ev'. rewrite lookup_delete. case_decide; [done|]. eauto.
    + intros ev' [->%elem_of_singleton|?]%elem_of_union; eauto.
Qed.
End registry_handlers.


Lemma bot_state_eq (st1 st2 : bot_state) :
  monitor_flags st1 = monitor_flags st2 →
  next_event st1 = next_event st2 →
  signalled st1 = signalled st2 →
  threads st1 = threads st2 →
  replies st1 = replies st2 →
  st1 = st2.
Proof. destruct st1, st2. simpl. by intros -> -> -> -> ->. Qed.

(** The order in which the snapshot lists the keys does not matter: any
    enumeration of the dict's keys gives the same count and the same
    state. *)
Lemma stop_all_loop_order (chat_id : Z) (keys : list (Z * pystr))
    (st : bot_state) :
  keys ≡ₚ flags_keys st →
  stop_all_loop chat_id keys st 0 = stop_all_loop chat_id (flags_keys st) st 0.
Proof.
  intros Hperm.
  assert (Hmem : ∀ key, key ∈ keys ↔ key ∈ flags_keys st).
  { intros key. by rewrite Hperm. }
  destruct (stop_all_loop_spec chat_id keys st 0)
    as (st1 & -> & Hgone1 & Hkept1 & Hsig1 & Hnext1 & Hthr1 & Hrep1).
  { rewrite Hperm. apply flags_keys_NoDup. }
  { intros key Hkey _. by apply elem_of_flags_keys, Hmem. }
  destruct (stop_all_loop_spec chat_id (flags_keys st) st 0)
    as (st2 & -> & Hgone2 & Hkept2 & Hsig2 & Hnext2 & Hthr2 & Hrep2).
  { apply flags_keys_NoDup. }
  { intros key Hkey _. by apply elem_of_flags_keys. }
  f_equal.
  - do 2 f_equal. apply Permutation_length. by rewrite Hperm.
  - apply bot_state_eq; try congruence.
    + apply map_eq. intros key.
      destruct (decide (key ∈ keys ∧ key.1 = chat_id)) as [[Hin Hc]|Hn].
      * rewrite Hgone1, Hgone2; [done| |done|done|done]. by apply Hmem.
      * rewrite Hkept1, Hkept2; [done| |done]. by rewrite <- Hmem.
    + apply set_eq. intros ev. rewrite Hsig1, Hsig2.
      by setoid_rewrite Hmem.
Qed.

Section stop_and_start.
Context {U : Unicode}.

(** C9: a stop request for one Twitter user (any message other than
    "all"). When the key (chat, user) is not in the registry the handler
    answers that no monitor was found and changes nothing else; when it
    is there the handler sets that entry's event, removes the entry
    (only that one) and answers that monitoring stopped. The registry is
    changed before the answer is sent: a failure of the answer is raised
    by the handler and undoes nothing. *)
Theorem receive_stop_key (st : bot_state) (chat : Z) (message_text : pystr)
    (out : reply_outcome) :
  let input_text := strip message_text in
  let key := (chat, input_text) in
  lower input_text ≠ "all" →
  (monitor_flags st !! key = None →
   ∃ st', receive_stop chat message_text out st = (handler_result out END, st')
          ∧ replies st'
            = replies st ++ sent_replies out chat (NoActiveMonitor input_text)
          ∧ monitor_flags st' = monitor_flags st
          ∧ signalled st' = signalled st
          ∧ next_event st' = next_event st
          ∧ threads st' = threads st)
  ∧ (∀ ev, monitor_flags st !! key = Some ev →
     ∃ st', receive_stop chat message_text out st = (handler_result out END, st')
            ∧ replies st'
              = replies st ++ sent_replies out chat (StoppedUser input_text)
            ∧ ev ∈ signalled st'
            ∧ signalled st' = {[ ev ]} ∪ signalled st
            ∧ monitor_flags st' !! key = None
            ∧ monitor_flags st' = delete key (monitor_flags st)
            ∧ (∀ key', key' ≠ key →
                 monitor_flags st' !! key' = monitor_flags st !! key')).
Proof.
  intros input_text key Hall. unfold receive_stop.
  fold input_text. rewrite bool_decide_eq_false_2 by done. fold key. split.
  - intros ->.
    destruct (reply_and_return_run chat (NoActiveMonitor input_text) out END st)
      as (st' & -> & ? & ? & ? & ? & ?).
    by exists st'.
  - intros ev ->.
    destruct (reply_and_return_run chat (StoppedUser input_text) out END
                (flags_del key (event_set ev st)))
      as (st' & -> & Hflags & ? & Hsig & ? & ?).
    exists st'. simpl in *. rewrite Hflags, Hsig. split_and!; try done.
    + apply elem_of_union. left. by apply elem_of_singleton.
    + apply lookup_delete_eq.
    + intros key' Hne. by apply lookup_delete_ne.
Qed.

(** C8: a stop request "all" from chat [E]. The loop of the handler
    never raises; it sets the event of, and removes, exactly the entries
    whose key has chat [E], leaves every entry of another chat as it
    was, and the count it reports is the number of entries removed. The
    registry is changed before the count is sent. *)
Theorem receive_stop_all (st : bot_state) (E : Z) (message_text : pystr)
    (out : reply_outcome) :
  lower (strip message_text) = "all" →
  ∃ st' count,
    receive_stop E message_text out st = (handler_result out END, st')
    ∧ replies st' = replies st ++ sent_replies out E (StoppedCount count)
    ∧ (∀ key, key.1 = E → monitor_flags st' !! key = None)
    ∧ (∀ key, key.1 ≠ E → monitor_flags st' !! key = monitor_flags st !! key)
    ∧ (∀ ev, ev ∈ signalled st' ↔
             ev ∈ signalled st
             ∨ ∃ key, key.1 = E ∧ monitor_flags st !! key = Some ev)
    ∧ count = size (filter (λ kv, kv.1.1 = E) (monitor_flags st))
    ∧ size (monitor_flags st) = (size (monitor_flags st') + count)%nat
    ∧ next_event st' = next_event st
    ∧ threads st' = threads st.
Proof.
  intros Hall. unfold receive_stop. rewrite bool_decide_eq_true_2 by done.
  destruct (stop_all_loop_spec E (flags_keys st) st 0)
    as (st1 & Hrun & Hgone & Hkept & Hsig & Hnext & Hthr & Hrep).
  { apply flags_keys_NoDup. }
  { intros key Hkey _. by apply elem_of_flags_keys. }
  rewrite Hrun. simpl.
  destruct (reply_and_return_run E
              (StoppedCount (length (filter (λ key, key.1 = E) (flags_keys st))))
              out END st1)
    as (st' & -> & Hflags' & Hnext' & Hsig' & Hthr' & Hrep').
  assert (Hlook : ∀ key, key.1 = E → monitor_flags st' !! key = None).
  { intros key HE. rewrite Hflags'.
    destruct (monitor_flags st !! key) as [ev|] eqn:Hl.
    - apply Hgone; [|done]. apply elem_of_flags_keys. by exists ev.
    - rewrite Hkept; [done|]. intros [Hin _].
      apply elem_of_flags_keys in Hin as [? ?]. congruence. }
  assert (Hother : ∀ key, key.1 ≠ E →
                     monitor_flags st' !! key = monitor_flags st !! key).
  { intros key HE. rewrite Hflags'. apply Hkept. by intros [_ ?]. }
  assert (Hmap : monitor_flags st'
                 = filter (λ kv, ¬ kv.1.1 = E) (monitor_flags st)).
  { apply map_eq. intros key.
    destruct (decide (key.1 = E)) as [HE|HE].
    - rewrite Hlook by done. symmetry. apply map_lookup_filter_None.
      right. intros ev _ Hn. by apply Hn.
    - rewrite Hother by done.
      destruct (monitor_flags st !! key) as [ev|] eqn:Hl; symmetry.
      + by apply map_lookup_filter_Some.
      + apply map_lookup_filter_None. by left. }
  eexists _, _. split; [reflexivity|]. rewrite Hrep', Hrep, Hnext', Hthr'.
  split_and!; try done.
  - intros ev. rewrite Hsig', Hsig. split.
    + intros [?|(key & _ & ? & ?)]; [by left|]. right. by exists key.
    + intros [?|(key & ? & Hl)]; [by left|]. right. exists key.
      split_and!; try done. apply elem_of_flags_keys. by exists ev.
  - apply count_flags_keys.
  - rewrite count_flags_keys, Hmap.
    rewrite <- (map_filter_union_complement (λ kv, kv.1.1 = E) (monitor_flags st))
      at 1.
    rewrite map_size_disj_union by apply map_disjoint_filter_complement.
    lia.
Qed.

(** Two starts for the key (1, "nasa") in a row, whatever the tables of
    the runtime. *)
Lemma second_start_sample :
  first_start.1.1 = Ok END
  ∧ monitor_flags first_start.2 !! (1, of_string "nasa") = Some 0%nat
  ∧ replies first_start.2 = [(1, ConfigurationReceived)]
  ∧ second_start.1.1 = Ok END
  ∧ replies second_start.2
    = [(1, ConfigurationReceived); (1, ConfigurationReceived)]
  ∧ monitor_flags second_start.2 !! (1, of_string "nasa") = Some 1%nat
  ∧ List.map w_stop_event (threads second_start.2) = [0%nat; 1%nat]
  ∧ 0%nat ∉ signalled second_start.2.
Proof.
  split_and!; try (vm_compute; reflexivity).
  change (signalled second_start.2) with (∅ : gset nat).
  apply not_elem_of_empty.
Qed.

(** C1, amended: a start request whose key (chat, user) is already in the
    registry is accepted like any other. The handler creates a fresh
    event and replaces the registry entry of the key by it; it then
    answers with the same confirmation and starts a thread on the fresh
    event (when the confirmation cannot be sent the handler raises
    before it starts the thread). The event of the earlier subscription
    is not set; it is only no longer in the registry. Entries of other
    keys are unchanged. *)
Theorem receive_keywords_same_key (RAPIDAPI_KEY : pystr) (chat : Z)
    (message_text : pystr) (out : reply_outcome) (ud : user_data)
    (st : bot_state) (user : pystr) (ev : nat) :
  events_allocated st →
  ud_twitter_user_id ud = Some user →
  monitor_flags st !! (chat, user) = Some ev →
  ∃ ud' st',
    receive_keywords RAPIDAPI_KEY chat message_text out ud st
    = (handler_result out END, ud', st')
    ∧ replies st' = replies st ++ sent_replies out chat ConfigurationReceived
    ∧ monitor_flags st' !! (chat, user) = Some (next_event st)
    ∧ next_event st ≠ ev
    ∧ (next_event st ∉ signalled st')
    ∧ signalled st' = signalled st
    ∧ (∀ key, key ≠ (chat, user) →
         monitor_flags st' !! key = monitor_flags st !! key)
    ∧ threads st'
      = threads st ++
        match out with
        | ReplySent =>
            [{| w_twitter_user_id := user;
                w_rapidapi_key := RAPIDAPI_KEY;
                w_target_chat_id := chat;
                w_stop_event := next_event st;
                w_keywords := parse_keywords (strip message_text) |}]
        | ReplyRaised _ => []
        end.
Proof.
  intros (Hflags & Hsig & _) Hud Hev. unfold receive_keywords. simpl.
  rewrite Hud. simpl.
  destruct out as [|e]; simpl; (eexists _, _; split; [reflexivity|]); simpl;
    rewrite ?app_nil_r; (split_and!; try done).
  - apply lookup_insert_eq.
  - apply Hflags in Hev. lia.
  - intros H%Hsig. lia.
  - intros key Hne. by apply lookup_insert_ne.
  - apply lookup_insert_eq.
  - apply Hflags in Hev. lia.
  - intros H%Hsig. lia.
  - intros key Hne. by apply lookup_insert_ne.
Qed.
End stop_and_start.

Section sample_requests.
#[local] Existing Instance ascii_tables.

Lemma receive_stop_key_witness :
  lower (strip " nasa ") ≠ "all"
  ∧ monitor_flags two_monitors !! (1, strip " nasa ") = Some 0%nat
  ∧ ∃ st', receive_stop 1 " nasa " ReplySent two_monitors = (Ok END, st')
           ∧ 0%nat ∈ signalled st'
           ∧ monitor_flags st' !! (1, strip " nasa ") = None
           ∧ monitor_flags st' !! (2, of_string "esa") = Some 1%nat.
Proof.
  assert (Hall : lower (strip " nasa ") ≠ "all") by (vm_compute; discriminate).
  split; [exact Hall|]. split; [vm_compute; reflexivity|].
  destruct (receive_stop_key two_monitors 1 " nasa " ReplySent Hall) as [_ H].
  destruct (H 0%nat) as (st' & Hrun & _ & Hset & _ & Hgone & _ & Hothers).
  { vm_compute. reflexivity. }
  exists st'. split; [exact Hrun|]. clear Hrun. split_and!; [done|done|].
  rewrite Hothers; [vm_compute; reflexivity|]. vm_compute. discriminate.
Defined.

Lemma receive_stop_all_witness :
  lower (strip " All") = "all"
  ∧ ∃ st', receive_stop 1 " All" ReplySent three_monitors = (Ok END, st')
           ∧ replies st' = [(1, StoppedCount 2)]
           ∧ monitor_flags st' !! (1, of_string "nasa") = None
           ∧ monitor_flags st' !! (1, of_string "jaxa") = None
           ∧ monitor_flags st' !! (2, of_string "esa") = Some 1%nat
           ∧ 0%nat ∈ signalled st' ∧ 2%nat ∈ signalled st'
           ∧ 1%nat ∉ signalled st'.
Proof.
  split; [reflexivity|].
  destruct (receive_stop_all three_monitors 1 " All" ReplySent eq_refl)
    as (st' & count & Hrun & Hrep & Hgone & Hkept & Hsig & Hcount & _).
  exists st'. split; [exact Hrun|]. clear Hrun. split_and!.
  - rewrite Hrep, Hcount. vm_compute. reflexivity.
  - by apply Hgone.
  - by apply Hgone.
  - rewrite Hkept by done. vm_compute. reflexivity.
  - apply Hsig. right. exists (1, of_string "nasa"). split; [done|].
    vm_compute. reflexivity.
  - apply Hsig. right. exists (1, of_string "jaxa"). split; [done|].
    vm_compute. reflexivity.
  - intros [H|((c & u) & Hc & Hl)]%Hsig.
    + by apply not_elem_of_empty in H.
    + simpl in Hc. subst c. unfold three_monitors in Hl. simpl in Hl.
      rewrite !lookup_insert in Hl. repeat case_decide; simplify_eq.
Defined.

(** C1, as stated, fails: the second start for the key (1, "nasa") is
    answered like the first, returns like the first and starts a second
    thread; the registry entry, event 0 after the first start, is event 1
    after the second, and event 0 is not set. *)
Lemma second_start_not_rejected :
  first_start.1.1 = Ok END
  ∧ monitor_flags first_start.2 !! (1, of_string "nasa") = Some 0%nat
  ∧ replies first_start.2 = [(1, ConfigurationReceived)]
  ∧ second_start.1.1 = Ok END
  ∧ replies second_start.2
    = [(1, ConfigurationReceived); (1, ConfigurationReceived)]
  ∧ monitor_flags second_start.2 !! (1, of_string "nasa") = Some 1%nat
  ∧ List.map w_stop_event (threads second_start.2) = [0%nat; 1%nat]
  ∧ 0%nat ∉ signalled second_start.2.
Proof. apply second_start_sample. Qed.

Lemma receive_keywords_same_key_witness :
  events_allocated first_start.2
  ∧ ud_twitter_user_id nasa_data = Some (of_string "nasa")
  ∧ monitor_flags first_start.2 !! (1, of_string "nasa") = Some 0%nat
  ∧ ∃ ud' st',
      second_start = (Ok END, ud', st')
      ∧ monitor_flags st' !! (1, of_string "nasa") = Some 1%nat
      ∧ signalled st' = ∅.
Proof.
  assert (Halloc : events_allocated first_start.2).
  { apply events_allocated_receive_keywords, events_allocated_initial. }
  assert (Hl : monitor_flags first_start.2 !! (1, of_string "nasa") = Some 0%nat).
  { vm_compute. reflexivity. }
  split_and!; try done.
  destruct (receive_keywords_same_key "k" 1 "none" ReplySent nasa_data
              first_start.2 "nasa" 0%nat Halloc eq_refl Hl)
    as (ud' & st' & Hrun & _ & Hnew & _ & _ & Hsig & _).
  exists ud', st'. split; [exact Hrun|]. clear Hrun. split; [exact Hnew|].
  exact Hsig.
Defined.
End sample_requests.

(** * Further properties *)

Open Scope Z_scope.

(** ** One iteration of the polling loop *)

Section iteration.
Context {U : Unicode}.
Variables (twitter_user_id rapidapi_key : pystr) (target_chat_id : Z).
Variable keywords : list pystr.
Implicit Types (s : wstate) (inp : poll_input) (inputs : list poll_input).

Local Abbreviation iteration :=
  (poll_iteration twitter_user_id rapidapi_key target_chat_id keywords).

Local Arguments py_truthy : simpl never.
Local Arguments py_eq : simpl never.
Local Arguments is_none : simpl never.
Local Arguments get_tweet_text : simpl never.
Local Arguments get_tweet_id : simpl never.
Local Arguments any_keyword : simpl never.
Local Arguments tweet_message : simpl never.
Local Arguments Z.add : simpl never.

Ltac run_body :=
  unfold poll_iteration, poll_body, get_user_tweets, send_telegram_message;
  repeat (unfold mbind, M_bind, mret, M_ret, sleep, emit, elapse, lift,
            read_latest, write_latest, continue_, raise_; cbn).

(** What one iteration adds to the trace, and how far it moves the
    clock. *)
Lemma poll_iteration_effects inp s :
  ∃ evs,
    trace (iteration inp s) = (trace s ++ evs)
    ∧ gets evs = 1%nat
    ∧ sleeps evs = [5]
    ∧ (length (posts evs) ≤ 1)%nat
    ∧ (∀ chat msg, (chat, msg) ∈ posts evs → chat = target_chat_id)
    ∧ clock (iteration inp s)
      = clock s + get_time inp
        + (if posts evs is [] then 0 else post_time inp) + 5.
Proof.
  run_body.
  repeat (case_match; run_body; simplify_eq/=);
    rewrite <- ?app_assoc; (eexists; split; [reflexivity|]); simpl;
    (split_and!; [done|done|lia| |lia]);
    intros chat msg Hin;
    repeat (apply elem_of_cons in Hin as [Hin|Hin]; [by simplify_eq|]);
    by apply elem_of_nil in Hin.
Qed.

(** The marker changes only to a truthy id that this iteration's
    response carries. *)
Lemma poll_iteration_marker inp s :
  latest_tweet_id (iteration inp s) = latest_tweet_id s
  ∨ (py_truthy (latest_tweet_id (iteration inp s)) = true
     ∧ ∃ data, get_result inp = GetJson data
               ∧ get_tweet_id data = Ok (latest_tweet_id (iteration inp s))).
Proof.
  run_body.
  repeat (case_match; run_body; simplify_eq/=); try (by left);
    right; repeat match goal with
                  | H : _ && _ = true |- _ => apply andb_true_iff in H as [? ?]
                  end; eauto.
Qed.
End iteration.

(** ** Runs of the polling loop *)

Lemma gets_app tr1 tr2 : gets (tr1 ++ tr2) = (gets tr1 + gets tr2)%nat.
Proof. induction tr1 as [|[] tr1 IH]; simpl; by rewrite ?IH. Qed.

Lemma sleeps_app tr1 tr2 : sleeps (tr1 ++ tr2) = (sleeps tr1 ++ sleeps tr2).
Proof. induction tr1 as [|[] tr1 IH]; simpl; by rewrite ?IH. Qed.

Section runs.
Context {U : Unicode}.
Variables (twitter_user_id rapidapi_key : pystr) (target_chat_id : Z).
Variable keywords : list pystr.
Implicit Types (s : wstate) (inp : poll_input) (inputs : list poll_input).

Local Abbreviation iteration :=
  (poll_iteration twitter_user_id rapidapi_key target_chat_id keywords).
Local Abbreviation run :=
  (poll_all twitter_user_id rapidapi_key target_chat_id keywords).
Local Abbreviation loop :=
  (monitor_loop twitter_user_id rapidapi_key target_chat_id).

Lemma monitor_loop_nil stop_event s :
  is_set stop_event (clock s) = false →
  loop stop_event keywords [] s = (Running, s).
Proof. intros H. simpl. by rewrite H. Qed.

Lemma poll_iteration_clock d inp s :
  calls_within d inp →
  clock s + 5 ≤ clock (iteration inp s) ≤ clock s + d + 5.
Proof.
  intros (Hget & Hpost & Hd).
  destruct (poll_iteration_effects twitter_user_id rapidapi_key target_chat_id
              keywords inp s) as (evs & _ & _ & _ & _ & _ & ->).
  destruct (posts evs); lia.
Qed.

(** X1: a run of the loop body over [n] inputs makes exactly [n] GET
    requests and [n] sleeps of 5, and posts at most [n] messages, all of
    them to the chat the thread was started for; the trace only grows. *)
Theorem run_effects inputs s :
  ∃ evs,
    trace (run inputs s) = (trace s ++ evs)
    ∧ gets evs = length inputs
    ∧ sleeps evs = replicate (length inputs) 5
    ∧ (length (posts evs) ≤ length inputs)%nat
    ∧ (∀ chat msg, (chat, msg) ∈ posts evs → chat = target_chat_id).
Proof.
  revert s. induction inputs as [|inp inputs IH]; intros s.
  - exists []. simpl. rewrite app_nil_r. split_and!; try done.
    intros chat msg H. by apply elem_of_nil in H.
  - unfold poll_all in *. simpl.
    destruct (poll_iteration_effects twitter_user_id rapidapi_key
                target_chat_id keywords inp s)
      as (evs1 & Htr1 & Hget1 & Hsl1 & Hlen1 & Hchat1 & _).
    destruct (IH (iteration inp s)) as (evs2 & -> & Hget2 & Hsl2 & Hlen2 & Hchat2).
    exists (evs1 ++ evs2). rewrite Htr1, <- app_assoc.
    rewrite gets_app, sleeps_app, posts_app, length_app, Hget1, Hget2, Hsl1, Hsl2.
    split_and!; try done; [lia|].
    intros chat msg [?|?]%elem_of_app; eauto.
Qed.

(** X2: when no network call takes negative time and the calls of one
    iteration take at most [d] together, [n] iterations take at least
    [5 n] and at most [(d + 5) n]: the thread asks the timeline at most
    once every 5 units of time. *)
Theorem run_clock d inputs s :
  Forall (calls_within d) inputs →
  clock s + 5 * Z.of_nat (length inputs) ≤ clock (run inputs s)
  ∧ clock (run inputs s) ≤ clock s + (d + 5) * Z.of_nat (length inputs).
Proof.
  revert s. induction inputs as [|inp inputs IH]; intros s Hall.
  - simpl. lia.
  - apply Forall_cons in Hall as [Hinp Hall]. unfold poll_all in *. simpl.
    specialize (IH (iteration inp s) Hall).
    pose proof (poll_iteration_clock d inp s Hinp). simpl length. lia.
Qed.

(** X3: a thread whose stop event is set at time [t], after the state
    [s], stops at the first check at or after [t]: if the loop ends it
    ends less than one iteration ([d + 5]) after [t], and it does end
    when the inputs cover the time up to [t]. *)
Theorem stop_latency d t inputs s :
  Forall (calls_within d) inputs →
  clock s < t →
  (∀ s', loop (Some t) keywords inputs s = (Stopped, s') →
         t ≤ clock s' < t + d + 5)
  ∧ (t ≤ clock s + 5 * Z.of_nat (length inputs) →
     ∃ s', loop (Some t) keywords inputs s = (Stopped, s')).
Proof.
  revert s. induction inputs as [|inp inputs IH]; intros s Hall Hlt.
  - assert (Hset : is_set (Some t) (clock s) = false) by (by apply Z.leb_gt).
    rewrite monitor_loop_nil by done. split; [done|]. simpl. lia.
  - apply Forall_cons in Hall as [Hinp Hall].
    assert (Hset : is_set (Some t) (clock s) = false) by (by apply Z.leb_gt).
    rewrite monitor_loop_cons by done.
    pose proof (poll_iteration_clock d inp s Hinp) as Hclock.
    destruct (Z.le_gt_cases t (clock (iteration inp s))) as [Hle|Hgt].
    + rewrite monitor_loop_set by (by apply Z.leb_le). split.
      * intros s' [= <-]. lia.
      * intros _. by eexists.
    + destruct (IH (iteration inp s) Hall) as [Hbound Hlive]; [lia|].
      split; [done|]. intros Hcover. apply Hlive.
      simpl length in Hcover. lia.
Qed.

(** X4: the marker of a thread is [None] or a truthy id; once it is an
    id it is never [None] again, and whenever the loop leaves it changed
    its value is the id extracted from the response of one of the
    iterations. *)
Theorem marker_invariant stop_event inputs s :
  latest_tweet_id s = JNull ∨ py_truthy (latest_tweet_id s) = true →
  let s' := (loop stop_event keywords inputs s).2 in
  (latest_tweet_id s' = JNull ∨ py_truthy (latest_tweet_id s') = true)
  ∧ (latest_tweet_id s ≠ JNull → latest_tweet_id s' ≠ JNull)
  ∧ (latest_tweet_id s' = latest_tweet_id s
     ∨ ∃ inp data, inp ∈ inputs ∧ get_result inp = GetJson data
                   ∧ get_tweet_id data = Ok (latest_tweet_id s')).
Proof.
  revert s. induction inputs as [|inp inputs IH]; intros s Hs; simpl.
  - destruct (is_set stop_event (clock s)); simpl; split_and!; auto.
  - destruct (is_set stop_event (clock s)); simpl; [split_and!; auto|].
    destruct (poll_iteration_marker twitter_user_id rapidapi_key
                target_chat_id keywords inp s) as [Heq|(Htruthy & data & Hget & Hid)].
    + destruct (IH (iteration inp s)) as (H1 & H2 & H3); [by rewrite Heq|].
      rewrite Heq in H2, H3. split_and!; [done|done|].
      destruct H3 as [?|(inp' & data' & ? & ? & ?)]; [by left|].
      right. exists inp', data'. split_and!; [by right|done|done].
    + destruct (IH (iteration inp s)) as (H1 & H2 & H3); [by right|].
      assert (Hne : latest_tweet_id (iteration inp s) ≠ JNull).
      { intros Hnull. by rewrite Hnull in Htruthy. }
      split_and!; [done|by auto|]. right.
      destruct H3 as [->|(inp' & data' & ? & ? & ?)].
      * exists inp, data. split_and!; [by left|done|done].
      * exists inp', data'. split_and!; [by right|done|done].
Qed.
End runs.

(** ** What an iteration does with what it fetched *)

Section fetched.
Context {U : Unicode}.
Variables (twitter_user_id rapidapi_key : pystr) (target_chat_id : Z).
Variable keywords : list pystr.
Implicit Types (s : wstate) (inp : poll_input) (inputs : list poll_input).

Local Abbreviation iteration :=
  (poll_iteration twitter_user_id rapidapi_key target_chat_id keywords).
Local Abbreviation loop :=
  (monitor_loop twitter_user_id rapidapi_key target_chat_id).

Local Arguments py_truthy : simpl never.
Local Arguments py_eq : simpl never.
Local Arguments is_none : simpl never.
Local Arguments get_tweet_text : simpl never.
Local Arguments get_tweet_id : simpl never.
Local Arguments any_keyword : simpl never.
Local Arguments tweet_message : simpl never.
Local Arguments as_str : simpl never.
Local Arguments Z.add : simpl never.

Ltac run_try :=
  repeat (unfold mbind, M_bind, mret, M_ret, sleep, emit, elapse, lift,
            read_latest, write_latest, continue_, raise_; cbn).

Local Abbreviation quiet := (quiet_iteration twitter_user_id rapidapi_key).

Lemma poll_iteration_falsy_body inp s data :
  get_result inp = GetJson data → py_truthy data = false →
  iteration inp s = quiet inp s.
Proof.
  intros Hget Hdata. unfold poll_iteration, poll_body, get_user_tweets, quiet_iteration.
  run_try. rewrite Hget. run_try. rewrite Hdata. run_try.
  by rewrite <- !app_assoc.
Qed.

Lemma poll_iteration_falsy_item inp s data text id :
  get_result inp = GetJson data →
  get_tweet_text data = Ok text → get_tweet_id data = Ok id →
  py_truthy text && py_truthy id = false →
  iteration inp s = quiet inp s.
Proof.
  intros Hget Htext Hid Hfalsy.
  destruct (py_truthy data) eqn:Hdata;
    [|by apply (poll_iteration_falsy_body inp s data)].
  unfold poll_iteration, poll_body, get_user_tweets, quiet_iteration.
  run_try. rewrite Hget. run_try. rewrite Hdata, Htext, Hid. run_try.
  rewrite Hfalsy. run_try. by rewrite <- !app_assoc.
Qed.

(** X5: an iteration whose response shows no usable tweet only asks and
    sleeps: it posts nothing, logs nothing and keeps the marker. That is
    so when the decoded body is falsy (such as [{}], [[]] or [null]),
    when a key of the path is missing or a list of the path is too
    short, and when the extracted text or id is falsy (such as the empty
    string). *)
Theorem nothing_to_announce inp s data :
  get_result inp = GetJson data →
  (py_truthy data = false
   ∨ (∃ e, subscripts data (legacy_path ++ [Key "full_text"]) = Raise e
           ∧ is_key_or_index_error e = true)
   ∨ (∃ text id, get_tweet_text data = Ok text ∧ get_tweet_id data = Ok id
                 ∧ py_truthy text && py_truthy id = false)) →
  iteration inp s = quiet inp s
  ∧ posts (trace (iteration inp s)) = posts (trace s)
  ∧ latest_tweet_id (iteration inp s) = latest_tweet_id s.
Proof.
  intros Hget Hcases.
  assert (Hquiet : iteration inp s = quiet inp s).
  { destruct Hcases as [Hdata|[(e & Hsub & He)|(text & id & Htext & Hid & Hf)]].
    - by apply (poll_iteration_falsy_body inp s data).
    - assert (Htext : get_tweet_text data = Ok JNull).
      { unfold get_tweet_text, try_key_index. by rewrite Hsub, He. }
      destruct (get_tweet_id_total data JNull Htext) as [id Hid].
      by apply (poll_iteration_falsy_item inp s data JNull id).
    - by apply (poll_iteration_falsy_item inp s data text id). }
  rewrite Hquiet. unfold quiet_iteration. simpl. split_and!; try done.
  rewrite posts_app. simpl. by rewrite app_nil_r.
Qed.

(** X6: an exception of the GET that is not of the [requests] family
    leaves [get_user_tweets]; the handler of the loop logs it, posts it
    to the chat as a diagnostic and sleeps, the marker is kept and the
    loop goes on to its next check. *)
Theorem unexpected_exception_reported stop_event inp inputs s e :
  get_result inp = GetRaised e →
  is_request_exception e = false →
  is_set stop_event (clock s) = false →
  trace (iteration inp s)
  = (trace s
     ++ [HttpGet twitter_user_id rapidapi_key;
         LogError (ErrorInMonitor twitter_user_id e);
         HttpPost target_chat_id (MonitorError twitter_user_id e)]
     ++ post_log inp ++ [Sleep 5])
  ∧ posts (trace (iteration inp s))
    = (posts (trace s)
       ++ [(target_chat_id, MonitorError twitter_user_id e)])
  ∧ latest_tweet_id (iteration inp s) = latest_tweet_id s
  ∧ loop stop_event keywords (inp :: inputs) s
    = loop stop_event keywords inputs (iteration inp s).
Proof.
  intros Hget He Hset.
  assert (Hbody : poll_body twitter_user_id rapidapi_key target_chat_id
                    keywords inp s
                  = (Raising e,
                     {| latest_tweet_id := latest_tweet_id s;
                        clock := clock s + get_time inp;
                        trace := trace s
                                 ++ [HttpGet twitter_user_id rapidapi_key] |})).
  { unfold poll_body, get_user_tweets. run_try. rewrite Hget, He. by run_try. }
  assert (Htrace : trace (iteration inp s)
                   = (trace s
                      ++ [HttpGet twitter_user_id rapidapi_key;
                          LogError (ErrorInMonitor twitter_user_id e);
                          HttpPost target_chat_id
                            (MonitorError twitter_user_id e)]
                      ++ post_log inp ++ [Sleep 5])
                   ∧ latest_tweet_id (iteration inp s) = latest_tweet_id s).
  { unfold poll_iteration. rewrite Hbody, handler_run. simpl.
    by rewrite <- !app_assoc. }
  destruct Htrace as [Htrace Hlatest]. split_and!; try done.
  - rewrite Htrace, posts_app. simpl. by rewrite posts_app, posts_post_log.
  - by apply monitor_loop_cons.
Qed.

(** X7: when the extracted text is truthy but not a string, the first
    string method called on it ([lower] with keywords, [startswith]
    without) raises [AttributeError] and the tweet is reported as a
    failure, never announced. Without keywords the marker has already
    been moved to the tweet's id when that happens; with keywords the
    failure comes first and the marker is kept, so the same failure is
    reported again on the next poll. *)
Theorem non_string_text inp s data text id e :
  get_result inp = GetJson data →
  py_truthy data = true →
  get_tweet_text data = Ok text →
  get_tweet_id data = Ok id →
  py_truthy text && py_truthy id && is_new (latest_tweet_id s) id = true →
  as_str (match keywords with
          | [] => of_string "startswith"
          | _ :: _ => of_string "lower"
          end) text = Raise e →
  posts (trace (iteration inp s))
  = (posts (trace s) ++ [(target_chat_id, MonitorError twitter_user_id e)])
  ∧ announced (trace (iteration inp s)) = announced (trace s)
  ∧ latest_tweet_id (iteration inp s)
    = match keywords with [] => id | _ :: _ => latest_tweet_id s end.
Proof.
  intros Hget Hdata Htext Hid Hcond Hstr. unfold is_new in Hcond.
  assert (Hbody : ∃ s1,
    poll_body twitter_user_id rapidapi_key target_chat_id keywords inp s
    = (Raising e, s1)
    ∧ trace s1 = (trace s ++ [HttpGet twitter_user_id rapidapi_key])
    ∧ latest_tweet_id s1
      = match keywords with [] => id | _ :: _ => latest_tweet_id s end).
  { unfold poll_body, get_user_tweets.
    run_try. rewrite Hget. run_try. rewrite Hdata, Htext, Hid. run_try.
    rewrite Hcond. run_try.
    destruct keywords; cbn in Hstr; run_try; rewrite Hstr; run_try;
      by eexists. }
  destruct Hbody as (s1 & Hbody & Htr & Hlatest).
  unfold poll_iteration. rewrite Hbody, handler_run. simpl. rewrite Htr.
  split_and!; [| |done].
  - rewrite !posts_app. simpl. rewrite posts_app, posts_post_log. simpl.
    by rewrite app_nil_r.
  - rewrite !announced_app. simpl. rewrite announced_app, announced_post_log.
    simpl. by rewrite !app_nil_r.
Qed.
End fetched.

(** ** Extraction and de-duplication *)

Section changes_of_id.
Context {U : Unicode}.

(** X8: the two extraction functions fail together: one raises exactly
    when the other does, with the same exception, and that exception is
    a [TypeError] (a value on the path that cannot be subscripted as the
    path asks); a missing key or a short list never raises. *)
Theorem extraction_raises_together (data : json) (e : exn) :
  (get_tweet_text data = Raise e ↔ get_tweet_id data = Raise e)
  ∧ (get_tweet_text data = Raise e → ∃ what, e = TypeError what).
Proof.
  split; [|apply get_tweet_text_raises].
  unfold get_tweet_text, get_tweet_id. rewrite !subscripts_app.
  destruct (subscripts data legacy_path) as [legacy|e']; simpl; [|done].
  destruct legacy; simpl; try done.
  destruct (assoc _ d), (assoc _ d); simpl; done.
Qed.

(** X9: in a run over non-empty tweets that pass the filter, in any
    order, the announcements are the polled ids that differ from the id
    polled just before them (the first is always announced): the marker
    remembers one id only. When the timeline shows [a], then [b], then
    [a] again, [a] is announced twice. *)
Theorem announcements_follow_changes (twitter_user_id rapidapi_key : pystr)
    (target_chat_id : Z) (keywords : list pystr) (now : Z)
    (polls : list poll_input) (items : list (pystr * pystr)) :
  Forall2 (λ inp it, fetches inp (JStr it.1) it.2) polls items →
  Forall (λ it, it.1 ≠ [] ∧ it.2 ≠ [] ∧ passes_filter keywords it.2) items →
  announced
    (trace (monitor_tweets twitter_user_id rapidapi_key target_chat_id None
              keywords now polls).2)
  = JStr <$> changes JNull items.*1
  ∧ (∀ a b, a ≠ b → changes JNull [a; b; a] = [a; b; a]).
Proof.
  intros Hfetch Hadm. split.
  - rewrite monitor_tweets_never_set. simpl.
    by rewrite (poll_all_announced _ _ _ keywords polls items).
  - intros a b Hab. unfold changes, is_new. simpl.
    rewrite (bool_decide_eq_false_2 (b = a)) by done.
    by rewrite (bool_decide_eq_false_2 (a = b)) by done.
Qed.
End changes_of_id.

(** ** Keyword parsing and tags *)

Section parsing.
Context {U : Unicode}.
Implicit Types (s t w k field : pystr) (c sep : codepoint).

Lemma lstrip_suffix s : ∃ a, s = a ++ lstrip s.
Proof.
  induction s as [|c s [a IH]]; [by exists []|]. simpl.
  destruct (is_space c); [|by exists []].
  exists (c :: a). simpl. by rewrite <- IH.
Qed.

Lemma rstrip_prefix s : ∃ b, s = rstrip s ++ b.
Proof.
  induction s as [|c s [b IH]]; [by exists []|]. simpl.
  destruct (rstrip s) as [|d r] eqn:Hr.
  - destruct (is_space c); [by exists (c :: s)|].
    exists s. done.
  - exists b. simpl in *. by rewrite <- IH.
Qed.

Lemma strip_substring s : ∃ a b, s = a ++ strip s ++ b.
Proof.
  unfold strip. destruct (lstrip_suffix s) as [a Ha].
  destruct (rstrip_prefix (lstrip s)) as [b Hb].
  exists a, b. by rewrite <- Hb.
Qed.

Lemma lstrip_fixed s :
  match s with c :: _ => is_space c = false | [] => True end →
  lstrip s = s.
Proof. destruct s as [|c s]; [done|]. simpl. by intros ->. Qed.

Lemma lstrip_head s :
  match lstrip s with c :: _ => is_space c = false | [] => True end.
Proof.
  induction s as [|c s IH]; [done|]. simpl.
  destruct (is_space c) eqn:Hc; [done|]. simpl. done.
Qed.

Lemma rstrip_head s :
  match s with c :: _ => is_space c = false | [] => True end →
  match rstrip s with c :: _ => is_space c = false | [] => True end.
Proof.
  destruct s as [|c s]; [done|]. simpl. intros Hc.
  destruct (rstrip s); [by rewrite Hc|done].
Qed.

Lemma rstrip_cons c s :
  rstrip (c :: s)
  = match rstrip s with
    | [] => if is_space c then [] else [c]
    | r' => c :: r'
    end.
Proof. reflexivity. Qed.

Lemma rstrip_idemp s : rstrip (rstrip s) = rstrip s.
Proof.
  induction s as [|c s IH]; [done|]. rewrite rstrip_cons.
  destruct (rstrip s) as [|d r] eqn:Hr.
  - destruct (is_space c) eqn:Hc; [done|]. simpl. by rewrite Hc.
  - rewrite rstrip_cons. by rewrite IH.
Qed.

(** Stripping twice is stripping once. *)
Lemma strip_idemp s : strip (strip s) = strip s.
Proof.
  unfold strip.
  rewrite (lstrip_fixed (rstrip (lstrip s))).
  - apply rstrip_idemp.
  - apply rstrip_head, lstrip_head.
Qed.

(** What is left of a string after [strip] neither starts nor ends with
    white space. *)
Lemma rstrip_last s r c : rstrip s = r ++ [c] → is_space c = false.
Proof.
  revert r. induction s as [|d s IH]; intros r; [by destruct r|].
  rewrite rstrip_cons. destruct (rstrip s) as [|e r'] eqn:Hr.
  - destruct (is_space d) eqn:Hd; [by destruct r|].
    destruct r as [|? [|? ?]]; [|done..]. by intros [= <-].
  - destruct r as [|? r]; [done|]. intros [= <- H]. by apply (IH r).
Qed.

Lemma strip_ends s :
  (∀ c rest, strip s = c :: rest → is_space c = false)
  ∧ (∀ c rest, strip s = rest ++ [c] → is_space c = false).
Proof.
  split.
  - intros c rest H.
    pose proof (rstrip_head (lstrip s) (lstrip_head s)) as Hh.
    unfold strip in H. by rewrite H in Hh.
  - intros c rest H. by apply (rstrip_last (lstrip s) rest).
Qed.

Lemma split_on_nonempty sep s : split_on sep s ≠ [].
Proof.
  destruct s as [|c s]; [done|]. simpl.
  destruct (c =? sep)%N; [done|]. by destruct (split_on sep s).
Qed.

Lemma join_cons (glue x y : pystr) l :
  join glue (x :: y :: l) = x ++ glue ++ join glue (y :: l).
Proof. reflexivity. Qed.

(** Joining the fields of [s.split(sep)] with [sep] gives [s] back. *)
Lemma join_split_on sep s : join [sep] (split_on sep s) = s.
Proof.
  induction s as [|c s IH]; [done|]. simpl.
  destruct (split_on sep s) as [|h t] eqn:Hsplit;
    [by destruct (split_on_nonempty sep s)|].
  destruct (N.eqb_spec c sep) as [->|Hc].
  - rewrite join_cons, IH. done.
  - destruct t as [|h' t]; [simpl in *; by rewrite IH|].
    rewrite join_cons in *. by rewrite <- app_comm_cons, IH.
Qed.

(** No field of [s.split(sep)] contains [sep]. *)
Lemma split_on_no_sep sep s : ∀ field,
  field ∈ split_on sep s → ∀ pre post, field ≠ pre ++ sep :: post.
Proof.
  induction s as [|c s IH]; intros field.
  - intros ->%list_elem_of_singleton pre post H. by destruct pre.
  - simpl. destruct (N.eqb_spec c sep) as [->|Hc].
    + intros [->|Hin]%elem_of_cons; [|by apply IH].
      intros pre post H. by destruct pre.
    + destruct (split_on sep s) as [|h t] eqn:Hsplit;
        [by destruct (split_on_nonempty sep s)|].
      intros [->|Hin]%elem_of_cons; [|apply IH; by right].
      intros [|d pre] post H.
      * injection H as -> _. done.
      * injection H as _ Hh.
        apply (IH h) in Hh; [done|by left].
Qed.

Lemma join_field (glue : pystr) l : ∀ field,
  field ∈ l → ∃ pre post, join glue l = pre ++ field ++ post.
Proof.
  induction l as [|x l IH]; intros field; [by intros ?%elem_of_nil|].
  destruct l as [|y l].
  - intros ->%list_elem_of_singleton. exists [], []. simpl.
    by rewrite app_nil_r.
  - rewrite join_cons. intros [->|Hin]%elem_of_cons.
    + by exists [], (glue ++ join glue (y :: l)).
    + destruct (IH field Hin) as (pre & post & ->).
      exists (x ++ glue ++ pre), post. by rewrite <- !app_assoc.
Qed.

(** A field of [s.split(sep)] is a piece of [s]. *)
Lemma split_on_substring sep s field :
  field ∈ split_on sep s → ∃ pre post, s = pre ++ field ++ post.
Proof.
  intros Hin.
  destruct (join_field [sep] _ _ Hin) as (pre & post & H).
  rewrite join_split_on in H. by exists pre, post.
Qed.

(** X10: every keyword [receive_keywords] derives from a message is
    non-empty, neither starts nor ends with a character that is white
    space to the runtime ([strip] leaves it as it is), contains no comma
    and occurs in the message; a message whose lower case is "none"
    gives the empty list. *)
Theorem parse_keywords_clean (text : pystr) :
  (∀ keyword, keyword ∈ parse_keywords text →
     keyword ≠ []
     ∧ strip keyword = keyword
     ∧ (∀ c rest, keyword = c :: rest → is_space c = false)
     ∧ (∀ c rest, keyword = rest ++ [c] → is_space c = false)
     ∧ contains [ord ","] keyword = false
     ∧ contains keyword text = true)
  ∧ (lower text = "none" → parse_keywords text = []).
Proof.
  split.
  - intros keyword Hin. unfold parse_keywords in Hin.
    case_bool_decide; [by apply elem_of_nil in Hin|].
    apply list_elem_of_In, filter_In in Hin as [Hin Hne].
    apply in_map_iff in Hin as (field & <- & Hfield).
    apply list_elem_of_In in Hfield.
    destruct (strip_substring field) as (a & b & Hstrip).
    destruct (strip_ends field) as [Hfirst Hlast].
    split_and!; [| |done|done| |].
    + intros Heq. by rewrite Heq in Hne.
    + apply strip_idemp.
    + apply not_true_iff_false. intros (pre & post & Hk)%contains_spec.
      apply (split_on_no_sep (ord ",") text field Hfield (a ++ pre) (post ++ b)).
      rewrite Hstrip at 1. rewrite Hk.
      by rewrite <- !app_assoc.
    + apply contains_spec.
      destruct (split_on_substring (ord ",") text field Hfield)
        as (pre & post & Ht).
      exists (pre ++ a), (b ++ post).
      rewrite Ht at 1. rewrite Hstrip at 1. by rewrite <- !app_assoc.
  - intros Hnone. unfold parse_keywords. by rewrite bool_decide_eq_true_2.
Qed.

Lemma hashtag_matches_tags text tags :
  hashtag_matches text tags →
  ∀ tag, tag ∈ tags →
    ∃ w, tag = ord "#" :: w ∧ w ≠ [] ∧ all_word w = true
         ∧ ∃ pre post, text = pre ++ tag ++ post.
Proof.
  induction 1 as [g Hg|g w rest tags Hg Hne Hw Hrest _ IH]; intros tag Hin.
  - by apply elem_of_nil in Hin.
  - apply elem_of_cons in Hin as [->|Hin].
    + exists w. split_and!; try done. by exists g, rest.
    + destruct (IH tag Hin) as (w' & -> & Hne' & Hw' & pre & post & ->).
      exists w'. split_and!; try done.
      exists (g ++ ord "#" :: w ++ pre), post.
      by rewrite <- !app_assoc, <- !app_comm_cons, <- !app_assoc.
Qed.

(** X11: every tag that [re.findall] returns for a text is [#] followed
    by at least one word character and nothing else, and occurs in the
    text; the list is empty, and the message says "None", exactly when no
    [#] of the text is followed by a word character. The word characters
    are those of the runtime's tables. *)
Theorem hashtags_wellformed (text : pystr) :
  (∀ tag, tag ∈ findall_hashtags text →
     ∃ w, tag = ord "#" :: w ∧ w ≠ [] ∧ all_word w = true
          ∧ contains tag text = true)
  ∧ (findall_hashtags text = [] ↔ no_hashtag text)
  ∧ (no_hashtag text ↔
     ∀ timestamp twitter_user_id tweet_id,
       tweet_message timestamp twitter_user_id tweet_id text
       = NewTweet timestamp twitter_user_id tweet_id
           (if retweet_flag text then "Retweet" else "Original Tweet")
           "None" text).
Proof.
  assert (Hempty : findall_hashtags text = [] ↔ no_hashtag text).
  { rewrite findall_hashtags_spec. split.
    - by inversion 1.
    - by constructor. }
  split_and!; [|done|].
  - intros tag Hin.
    destruct (hashtag_matches_tags text (findall_hashtags text)) with tag
      as (w & -> & Hne & Hw & pre & post & Htext); [|done|].
    { by apply findall_hashtags_spec. }
    exists w. split_and!; try done. apply contains_spec. by exists pre, post.
  - rewrite <- Hempty. unfold tweet_message. split.
    + by intros ->.
    + intros H. specialize (H [] [] JNull).
      destruct (findall_hashtags text) as [|tag tags] eqn:Htags; [done|].
      exfalso. injection H as H.
      destruct (hashtag_matches_tags text (tag :: tags)) with tag
        as (w & -> & _); [|by left|].
      { by apply findall_hashtags_spec. }
      destruct tags; simpl in H; discriminate H.
Qed.
End parsing.

(** ** The registry over time *)

Section registry_loop.
Implicit Types (st : bot_state) (key : Z * pystr) (ev : nat).

(** The "all" branch of [receive_stop], by the loop's specification. *)
Lemma stop_all_run chat st :
  ∃ st',
    stop_all_loop chat (flags_keys st) st 0
    = (Ok (size (filter (λ kv : (Z * pystr) * nat, kv.1.1 = chat)
                   (monitor_flags st))), st')
    ∧ (∀ key, key.1 = chat → monitor_flags st' !! key = None)
    ∧ (∀ key, key.1 ≠ chat → monitor_flags st' !! key = monitor_flags st !! key)
    ∧ (∀ ev, ev ∈ signalled st' ↔
             ev ∈ signalled st
             ∨ ∃ key, key.1 = chat ∧ monitor_flags st !! key = Some ev)
    ∧ next_event st' = next_event st
    ∧ threads st' = threads st
    ∧ replies st' = replies st.
Proof.
  destruct (stop_all_loop_spec chat (flags_keys st) st 0)
    as (st' & Hrun & Hgone & Hkept & Hsig & Hnext & Hthr & Hrep).
  { apply flags_keys_NoDup. }
  { intros key Hkey _. by apply elem_of_flags_keys. }
  exists st'. rewrite Hrun, count_flags_keys. split_and!; try done.
  - intros key Hc. destruct (monitor_flags st !! key) as [ev|] eqn:Hl.
    + apply Hgone; [|done]. apply elem_of_flags_keys. by exists ev.
    + rewrite Hkept; [done|]. intros [Hin _].
      apply elem_of_flags_keys in Hin as [? ?]. congruence.
  - intros key Hc. apply Hkept. by intros [_ ?].
  - intros ev. rewrite Hsig. split.
    + intros [?|(key & _ & ? & ?)]; [by left|]. right. by exists key.
    + intros [?|(key & ? & Hl)]; [by left|]. right. exists key.
      split_and!; try done. apply elem_of_flags_keys. by exists ev.
Qed.

Lemma registry_inv_initial : registry_inv initial_state.
Proof.
  split; [apply events_allocated_initial|]. simpl.
  split_and!; [intros key ev H|intros key1 key2 ev H|intros key ev w H];
    by rewrite lookup_empty in H.
Qed.

Lemma registry_inv_reply chat r out state st :
  registry_inv st → registry_inv (reply_and_return chat r out state st).2.
Proof. by destruct out. Qed.

(** The registry part of a state after the statements of [receive_stop]
    that precede its reply, in the branch for one user. *)
Lemma registry_inv_stop_key key ev0 st :
  registry_inv st → monitor_flags st !! key = Some ev0 →
  registry_inv (flags_del key (event_set ev0 st)).
Proof.
  intros (Halloc & Hunset & Hinj & Hthr) Hl0.
  destruct Halloc as (Hflags & Hsig & Hthreads).
  split; [|split_and!]; simpl.
  - split_and!; simpl; [| |done].
    + intros key' ev. rewrite lookup_delete. case_decide; [done|]. eauto.
    + intros ev [->%elem_of_singleton|?]%elem_of_union; eauto.
  - intros key' ev. rewrite lookup_delete. case_decide as Hkey; [done|].
    intros Hl [->%elem_of_singleton|Hin]%elem_of_union.
    + apply Hkey. eauto.
    + by apply (Hunset key' ev).
  - intros key1 key2 ev. rewrite !lookup_delete.
    repeat case_decide; try done. apply Hinj.
  - intros key' ev w. rewrite lookup_delete. case_decide; [done|]. apply Hthr.
Qed.

Lemma registry_inv_stop_all chat st st' :
  registry_inv st →
  (∀ key, key.1 = chat → monitor_flags st' !! key = None) →
  (∀ key, key.1 ≠ chat → monitor_flags st' !! key = monitor_flags st !! key) →
  (∀ ev, ev ∈ signalled st' ↔
         ev ∈ signalled st
         ∨ ∃ key, key.1 = chat ∧ monitor_flags st !! key = Some ev) →
  next_event st' = next_event st →
  threads st' = threads st →
  registry_inv st'.
Proof.
  intros (Halloc & Hunset & Hinj & Hthr) Hgone Hkept Hsig Hnext Hthr'.
  destruct Halloc as (Hflags & Hsigs & Hthreads).
  assert (Hsub : ∀ key ev, monitor_flags st' !! key = Some ev →
                   key.1 ≠ chat ∧ monitor_flags st !! key = Some ev).
  { intros key ev Hl. destruct (decide (key.1 = chat)) as [Hc|Hc].
    - by rewrite Hgone in Hl.
    - by rewrite Hkept in Hl. }
  split; [|split_and!].
  - unfold events_allocated. rewrite Hnext, Hthr'. split_and!; [| |done].
    + intros key ev [_ Hl]%Hsub. eauto.
    + intros ev [?|(key & _ & Hl)]%Hsig; eauto.
  - intros key ev [Hc Hl]%Hsub [Hin|(key' & Hc' & Hl')]%Hsig.
    + by apply (Hunset key ev).
    + assert (key = key') by eauto. by subst.
  - intros key1 key2 ev [_ H1]%Hsub [_ H2]%Hsub. eauto.
  - intros key ev w [_ Hl]%Hsub. rewrite Hthr'. eauto.
Qed.
End registry_loop.

Section registry_steps.
Context {U : Unicode}.
Implicit Types (st : bot_state) (key : Z * pystr) (ev : nat).

Lemma registry_inv_receive_keywords api chat text out ud st :
  registry_inv st → registry_inv (receive_keywords api chat text out ud st).2.
Proof.
  intros (Halloc & Hunset & Hinj & Hthr).
  split; [by apply events_allocated_receive_keywords|].
  destruct Halloc as (Hflags & Hsig & Hthreads).
  rewrite Forall_forall in Hthreads.
  unfold receive_keywords. simpl.
  destruct (ud_twitter_user_id ud) as [user|]; simpl; [|done].
  assert (Hflags' : ∀ key ev,
            <[(chat, user) := next_event st]> (monitor_flags st) !! key = Some ev →
            (key = (chat, user) ∧ ev = next_event st)
            ∨ (key ≠ (chat, user) ∧ monitor_flags st !! key = Some ev)).
  { intros key ev. rewrite lookup_insert. case_decide; [|by right].
    intros [= <-]. by left. }
  assert (H123 :
    (∀ key ev,
       <[(chat, user) := next_event st]> (monitor_flags st) !! key = Some ev →
       ev ∉ signalled st)
    ∧ (∀ key1 key2 ev,
         <[(chat, user) := next_event st]> (monitor_flags st) !! key1 = Some ev →
         <[(chat, user) := next_event st]> (monitor_flags st) !! key2 = Some ev →
         key1 = key2)).
  { split.
    - intros key ev [[_ ->]|[_ Hl]]%Hflags'; [|by eapply Hunset].
      intros Hin%Hsig. lia.
    - intros key1 key2 ev [[-> ->]|[_ Hl1]]%Hflags' [[-> Hev]|[_ Hl2]]%Hflags';
        [done| | |by eauto].
      + apply Hflags in Hl2. lia.
      + apply Hflags in Hl1. lia. }
  destruct H123 as [H1 H2].
  destruct out as [|e]; simpl; (split_and!; [done|done|]).
  - intros key ev w [[-> ->]|[_ Hl]]%Hflags' [Hw|Hw]%elem_of_app Hev.
    + apply Hthreads in Hw. lia.
    + apply list_elem_of_singleton in Hw as ->. done.
    + by apply (Hthr key ev w).
    + apply list_elem_of_singleton in Hw as ->. simpl in Hev.
      apply Hflags in Hl. lia.
  - intros key ev w [[-> ->]|[_ Hl]]%Hflags' Hw Hev.
    + apply Hthreads in Hw. lia.
    + by apply (Hthr key ev w).
Qed.

Lemma registry_inv_receive_stop chat text out st :
  registry_inv st → registry_inv (receive_stop chat text out st).2.
Proof.
  intros Hinv. unfold receive_stop. case_bool_decide.
  - destruct (stop_all_run chat st)
      as (st' & -> & Hgone & Hkept & Hsig & Hnext & Hthr' & Hrep).
    apply registry_inv_reply. by eapply registry_inv_stop_all.
  - destruct (monitor_flags st !! _) as [ev0|] eqn:Hl0;
      apply registry_inv_reply; [|done].
    by apply registry_inv_stop_key.
Qed.

Lemma registry_inv_step st st' :
  handler_step st st' → registry_inv st → registry_inv st'.
Proof.
  intros Hstep Hinv.
  destruct Hstep as [chat out st|chat text out ud st|api chat text out ud st
                    |chat out st|chat out st|chat text out st].
  - by apply registry_inv_reply.
  - unfold receive_twitter_id.
    pose proof (registry_inv_reply chat AskKeywords out KEYWORDS st Hinv) as H.
    by destruct (reply_and_return chat AskKeywords out KEYWORDS st).
  - by apply registry_inv_receive_keywords.
  - by apply registry_inv_reply.
  - by apply registry_inv_reply.
  - by apply registry_inv_receive_stop.
Qed.

Lemma reachable_inv st : reachable st → registry_inv st.
Proof.
  unfold reachable. revert st. apply rtc_ind_r.
  - apply registry_inv_initial.
  - intros st st' _ Hstep IH. by eapply registry_inv_step.
Qed.

(** X12: in every state the bot can reach, whatever became of the
    replies, each registry entry has an event that exists, is not set and
    belongs to no other entry, and a thread that holds the event of an
    entry was started for the entry's chat and user: the registry lists
    only monitors that have not been told to stop. *)
Theorem registry_invariant st :
  reachable st →
  events_allocated st
  ∧ (∀ key ev, monitor_flags st !! key = Some ev → ev ∉ signalled st)
  ∧ (∀ key1 key2 ev,
       monitor_flags st !! key1 = Some ev →
       monitor_flags st !! key2 = Some ev → key1 = key2)
  ∧ (∀ key ev w, monitor_flags st !! key = Some ev →
       w ∈ threads st → w_stop_event w = ev →
       w_target_chat_id w = key.1 ∧ w_twitter_user_id w = key.2).
Proof. apply reachable_inv. Qed.

(** X20: an entry is not always held by a thread. When the confirmation
    of a start cannot be sent, [receive_keywords] raises after it has
    written the registry entry and before it starts the thread: the
    entry stays in the registry with a fresh event, no reply is recorded
    and no thread holds that event. *)
Theorem failed_confirmation_leaves_entry (RAPIDAPI_KEY : pystr) (chat : Z)
    (message_text : pystr) (e : exn) (ud : user_data) (st : bot_state)
    (user : pystr) :
  events_allocated st →
  ud_twitter_user_id ud = Some user →
  ∃ ud' st',
    receive_keywords RAPIDAPI_KEY chat message_text (ReplyRaised e) ud st
    = (Raise e, ud', st')
    ∧ monitor_flags st' !! (chat, user) = Some (next_event st)
    ∧ threads st' = threads st
    ∧ replies st' = replies st
    ∧ (∀ w, w ∈ threads st' → w_stop_event w ≠ next_event st).
Proof.
  intros (_ & _ & Hthreads) Hud. rewrite Forall_forall in Hthreads.
  unfold receive_keywords. simpl. rewrite Hud. simpl.
  eexists _, _. split; [reflexivity|]. simpl. split_and!; try done.
  - apply lookup_insert_eq.
  - intros w Hw%Hthreads. lia.
Qed.
End registry_steps.

Section orphans.
Context {U : Unicode}.
Implicit Types (st : bot_state) (key : Z * pystr) (ev : nat).

(** An event that exists, is not set and is in no registry entry. *)
Local Abbreviation orphan := (λ ev st,
  (ev < next_event st)%nat ∧ (ev ∉ signalled st)
  ∧ ∀ key, monitor_flags st !! key ≠ Some ev).

Lemma orphan_reply ev chat r out state st :
  orphan ev st → orphan ev (reply_and_return chat r out state st).2.
Proof. by destruct out. Qed.

Lemma orphan_step ev st st' :
  handler_step st st' → orphan ev st → orphan ev st'.
Proof.
  intros Hstep Horphan.
  destruct Hstep as [chat out st|chat text out ud st|api chat text out ud st
                    |chat out st|chat out st|chat text out st];
    try (by apply orphan_reply).
  - unfold receive_twitter_id.
    pose proof (orphan_reply ev chat AskKeywords out KEYWORDS st Horphan) as H.
    by destruct (reply_and_return chat AskKeywords out KEYWORDS st).
  - destruct Horphan as (Hlt & Hunset & Hout).
    unfold receive_keywords. simpl.
    destruct (ud_twitter_user_id ud) as [user|]; simpl; [|done].
    destruct out as [|e]; simpl; (split_and!; [lia|done|]);
      intros key; (rewrite lookup_insert; case_decide; [|apply Hout]);
      intros [= ?]; lia.
  - destruct Horphan as (Hlt & Hunset & Hout).
    unfold receive_stop. case_bool_decide.
    + destruct (stop_all_run chat st)
        as (st' & -> & Hgone & Hkept & Hsig & Hnext & _).
      apply orphan_reply. rewrite Hnext. split_and!; [done| |].
      * intros [?|(key & _ & Hl)]%Hsig; [done|]. by apply (Hout key).
      * intros key. destruct (decide (key.1 = chat)) as [Hc|Hc].
        -- by rewrite Hgone.
        -- rewrite Hkept by done. apply Hout.
    + destruct (monitor_flags st !! _) as [ev0|] eqn:Hl0;
        apply orphan_reply; [|done]. simpl.
      split_and!; [done| |].
      * intros [->%elem_of_singleton|?]%elem_of_union; [|done].
        by apply (Hout _ Hl0).
      * intros key. rewrite lookup_delete. case_decide; [done|apply Hout].
Qed.

(** X13: an event that is not set and is in no registry entry is never
    set by any later update, and never comes back into the registry: a
    thread whose entry was overwritten by a second start for the same
    key can no longer be stopped by any command. *)
Theorem orphan_never_stopped ev st st' :
  (ev < next_event st)%nat →
  ev ∉ signalled st →
  (∀ key, monitor_flags st !! key ≠ Some ev) →
  rtc handler_step st st' →
  (ev ∉ signalled st') ∧ ∀ key, monitor_flags st' !! key ≠ Some ev.
Proof.
  intros Hlt Hunset Hout Hsteps.
  assert (Hfinal : orphan ev st').
  { induction Hsteps as [|st st1 st2 Hstep _ IH]; [done|].
    destruct (orphan_step ev st st1 Hstep) as (? & ? & ?); [done|].
    by apply IH. }
  by destruct Hfinal as (_ & ? & ?).
Qed.


(** X15: a stop request from one chat, of either kind, leaves the
    entries of every other chat in the registry, and in a reachable
    state it sets none of their events. *)
Theorem receive_stop_other_chats chat message_text out st key :
  key.1 ≠ chat →
  monitor_flags (receive_stop chat message_text out st).2 !! key
  = monitor_flags st !! key
  ∧ (reachable st →
     ∀ ev, monitor_flags st !! key = Some ev →
           ev ∉ signalled (receive_stop chat message_text out st).2).
Proof.
  intros Hkey. unfold receive_stop. case_bool_decide.
  - destruct (stop_all_run chat st) as (st' & -> & _ & Hkept & Hsig & _).
    destruct (reply_and_return_run chat
                (StoppedCount (size (filter (λ kv : (Z * pystr) * nat,
                                               kv.1.1 = chat)
                                       (monitor_flags st)))) out END st')
      as (st'' & -> & Hf & _ & Hs & _).
    simpl. rewrite Hf, Hs. split; [by apply Hkept|].
    intros (_ & Hunset & Hinj & _)%reachable_inv ev Hl.
    intros [Hin|(key' & Hc & Hl')]%Hsig.
    + by apply (Hunset key ev).
    + assert (key = key') by eauto. by subst.
  - destruct (monitor_flags st !! _) as [ev0|] eqn:Hl0.
    + destruct (reply_and_return_run chat (StoppedUser (strip message_text))
                  out END
                  (flags_del (chat, strip message_text) (event_set ev0 st)))
        as (st'' & -> & Hf & _ & Hs & _).
      simpl. rewrite Hf, Hs. split.
      * apply lookup_delete_ne. intros <-. done.
      * intros (_ & Hunset & Hinj & _)%reachable_inv ev Hl.
        intros [->%elem_of_singleton|Hin]%elem_of_union.
        -- assert (key = (chat, strip message_text)) as -> by eauto. done.
        -- by apply (Hunset key ev).
    + destruct (reply_and_return_run chat
                  (NoActiveMonitor (strip message_text)) out END st)
        as (st'' & -> & Hf & _ & Hs & _).
      simpl. rewrite Hf, Hs. split; [done|].
      intros (_ & Hunset & _)%reachable_inv ev Hl. by apply (Hunset key).
Qed.

(** X16: the id typed in the start conversation is the id to type in the
    stop conversation. After [receive_twitter_id] and [receive_keywords]
    the key (chat, stripped id) is registered with a fresh event; a stop
    request with the same id text, unless its lower case reads "all",
    sets that event and removes the entry, so that the registry is what
    it was before without the key. Each of the three handlers raises
    only if its reply cannot be sent; the registry is written all the
    same. *)
Theorem start_then_stop (RAPIDAPI_KEY : pystr) (chat : Z)
    (id_text keywords_text : pystr) (out1 out2 out3 : reply_outcome)
    (ud : user_data) (st : bot_state) :
  lower (strip id_text) ≠ "all" →
  let '(r1, ud1, st1) := receive_twitter_id chat id_text out1 ud st in
  let '(r2, _, st2) :=
    receive_keywords RAPIDAPI_KEY chat keywords_text out2 ud1 st1 in
  let '(r3, st3) := receive_stop chat id_text out3 st2 in
  let key := (chat, strip id_text) in
  r1 = handler_result out1 KEYWORDS
  ∧ r2 = handler_result out2 END
  ∧ monitor_flags st2 !! key = Some (next_event st)
  ∧ r3 = handler_result out3 END
  ∧ monitor_flags st3 = delete key (monitor_flags st)
  ∧ signalled st3 = {[ next_event st ]} ∪ signalled st
  ∧ replies st3
    = replies st ++ sent_replies out1 chat AskKeywords
      ++ sent_replies out2 chat ConfigurationReceived
      ++ sent_replies out3 chat (StoppedUser (strip id_text)).
Proof.
  intros Hall. unfold receive_twitter_id, receive_keywords, receive_stop.
  rewrite bool_decide_eq_false_2 by done.
  destruct out1, out2, out3; simpl; rewrite lookup_insert_eq; simpl;
    rewrite delete_insert_eq, <- ?app_assoc, ?app_nil_r; done.
Qed.

(** X17: repeating a stop request changes nothing more: the second
    request finds no entry of its kind, answers that no monitor was
    found (or that 0 monitors were stopped, for "all"), if the answer
    can be sent at all, and leaves the registry and every event as the
    first request left them, whether or not the replies were sent. *)
Theorem receive_stop_twice (chat : Z) (message_text : pystr)
    (out1 out2 : reply_outcome) (st : bot_state) :
  let st1 := (receive_stop chat message_text out1 st).2 in
  let st2 := (receive_stop chat message_text out2 st1).2 in
  monitor_flags st2 = monitor_flags st1
  ∧ signalled st2 = signalled st1
  ∧ ∃ r, replies st2 = replies st1 ++ sent_replies out2 chat r
         ∧ (r = NoActiveMonitor (strip message_text) ∨ r = StoppedCount 0).
Proof.
  unfold receive_stop. case_bool_decide.
  - destruct (stop_all_run chat st)
      as (st1 & -> & Hgone1 & _ & _).
    destruct (reply_and_return_run chat
                (StoppedCount (size (filter (λ kv : (Z * pystr) * nat,
                                               kv.1.1 = chat)
                                       (monitor_flags st)))) out1 END st1)
      as (st1' & -> & Hflags1 & _ & Hsig1 & _ & _). simpl.
    destruct (stop_all_run chat st1')
      as (st2 & -> & Hgone2 & Hkept2 & Hsig2 & _ & _ & Hrep2).
    destruct (reply_and_return_run chat
                (StoppedCount (size (filter (λ kv : (Z * pystr) * nat,
                                               kv.1.1 = chat)
                                       (monitor_flags st1')))) out2 END st2)
      as (st2' & -> & Hflags2 & _ & Hsig2' & _ & Hrep2'). simpl.
    rewrite Hflags1 in *. split_and!.
    + rewrite Hflags2. apply map_eq. intros key.
      destruct (decide (key.1 = chat)) as [Hc|Hc].
      * by rewrite Hgone1, Hgone2.
      * by rewrite Hkept2.
    + rewrite Hsig2'. apply set_eq. intros ev. rewrite Hsig2.
      split; [|by left].
      intros [?|(key & Hc & Hl)]; [done|].
      by rewrite Hgone1 in Hl.
    + eexists. rewrite Hrep2', Hrep2. split; [done|]. right. f_equal.
      apply map_size_empty_iff, map_empty. intros key.
      apply map_lookup_filter_None.
      destruct (decide (key.1 = chat)) as [Hc|Hc]; [left; by apply Hgone1|].
      right. by intros ev _ ?.
  - destruct (monitor_flags st !! (chat, strip message_text)) as [ev|] eqn:Hl.
    + destruct (reply_and_return_run chat (StoppedUser (strip message_text))
                  out1 END
                  (flags_del (chat, strip message_text) (event_set ev st)))
        as (st1 & -> & Hflags1 & _ & Hsig1 & _ & _). simpl in *.
      rewrite Hflags1, lookup_delete_eq.
      destruct (reply_and_return_run chat
                  (NoActiveMonitor (strip message_text)) out2 END st1)
        as (st2 & -> & Hflags2 & _ & Hsig2 & _ & Hrep2). simpl.
      rewrite Hflags2, Hsig2, Hrep2.
      rewrite Hflags1. split_and!; try done.
      eexists. split; [done|by left].
    + destruct (reply_and_return_run chat
                  (NoActiveMonitor (strip message_text)) out1 END st)
        as (st1 & -> & Hflags1 & _ & Hsig1 & _ & _). simpl in *.
      rewrite Hflags1, Hl.
      destruct (reply_and_return_run chat
                  (NoActiveMonitor (strip message_text)) out2 END st1)
        as (st2 & -> & Hflags2 & _ & Hsig2 & _ & Hrep2). simpl.
      rewrite Hflags2, Hsig2, Hrep2.
      split_and!; try done.
      eexists. split; [done|by left].
Qed.
End orphans.

(** ** Monotonicity and delivery failures *)

Section history.
Context {U : Unicode}.

(** What a state has in common with an earlier one. *)
Local Abbreviation grown := (λ st st' : bot_state,
  signalled st ⊆ signalled st'
  ∧ (next_event st ≤ next_event st')%nat
  ∧ threads st `prefix_of` threads st'
  ∧ replies st `prefix_of` replies st').

Lemma grown_reply st chat r out state st' :
  grown st st' → grown st (reply_and_return chat r out state st').2.
Proof.
  intros (? & ? & ? & ?). destruct out; simpl; split_and!; try done.
  by apply prefix_app_r.
Qed.

Lemma handler_step_grows st st' :
  handler_step st st' → grown st st'.
Proof.
  assert (Hrefl : ∀ st0, grown st0 st0) by done.
  destruct 1 as [chat out st|chat text out ud st|api chat text out ud st
                |chat out st|chat out st|chat text out st];
    try (by apply grown_reply).
  - unfold receive_twitter_id.
    pose proof (grown_reply st chat AskKeywords out KEYWORDS st (Hrefl st)) as H.
    by destruct (reply_and_return chat AskKeywords out KEYWORDS st).
  - unfold receive_keywords. simpl.
    destruct (ud_twitter_user_id ud) as [user|]; simpl; [|done].
    destruct out; simpl;
      (split_and!; [done|lia| |]); try done; by apply prefix_app_r.
  - unfold receive_stop. case_bool_decide.
    + destruct (stop_all_run chat st)
        as (st' & -> & _ & _ & Hsig & Hnext & Hthr & Hrep).
      apply grown_reply. rewrite Hnext, Hthr, Hrep.
      split_and!; [|done|done|done].
      intros ev Hin. apply Hsig. by left.
    + destruct (monitor_flags st !! _); apply grown_reply; [|done]. simpl.
      split_and!; [|done|done|done]. apply union_subseteq_r.
Qed.

(** X18: no update undoes what an earlier one did to the events: an
    event that is set stays set (no handler clears one), the events,
    the threads started and the replies sent only grow. *)
Theorem history_grows (st st' : bot_state) :
  rtc handler_step st st' →
  signalled st ⊆ signalled st'
  ∧ (next_event st ≤ next_event st')%nat
  ∧ threads st `prefix_of` threads st'
  ∧ replies st `prefix_of` replies st'.
Proof.
  induction 1 as [st|st st1 st2 Hstep _ (IH1 & IH2 & IH3 & IH4)]; [done|].
  destruct (handler_step_grows st st1 Hstep) as (H1 & H2 & H3 & H4).
  split_and!; [by etrans|lia|by etrans|by etrans].
Qed.

(** X19: a tweet whose delivery to Telegram fails is not sent again. The
    marker is moved to the tweet's id before the message is posted, so
    when the POST raises or is answered with a status other than 200 the
    failure is logged, and the next poll that shows the same tweet only
    asks and sleeps. *)
Theorem failed_delivery_not_retried (twitter_user_id rapidapi_key : pystr)
    (target_chat_id : Z) (keywords : list pystr) (inp inp' : poll_input)
    (s : wstate) (tweet_id tweet_text : pystr) :
  fetches inp (JStr tweet_id) tweet_text →
  fetches inp' (JStr tweet_id) tweet_text →
  tweet_id ≠ [] → tweet_text ≠ [] →
  passes_filter keywords tweet_text →
  is_new (latest_tweet_id s) (JStr tweet_id) = true →
  post_log inp ≠ [] →
  let s1 := poll_iteration twitter_user_id rapidapi_key target_chat_id
              keywords inp s in
  let s2 := poll_iteration twitter_user_id rapidapi_key target_chat_id
              keywords inp' s1 in
  latest_tweet_id s1 = JStr tweet_id
  ∧ trace s1
    = (trace s
       ++ [HttpGet twitter_user_id rapidapi_key;
           HttpPost target_chat_id
             (tweet_message (ist_time inp) twitter_user_id (JStr tweet_id)
                tweet_text)]
       ++ post_log inp ++ [Sleep 5])
  ∧ s2 = quiet_iteration twitter_user_id rapidapi_key inp' s1
  ∧ posts (trace s2) = posts (trace s1).
Proof.
  intros Hf Hf' Hid Htext Hpass Hnew _ s1 s2.
  assert (Hne : py_truthy (JStr tweet_text) && py_truthy (JStr tweet_id) = true).
  { simpl. destruct tweet_text; [done|]. by destruct tweet_id. }
  assert (H1 : s1 = {| latest_tweet_id := JStr tweet_id;
                       clock := clock s + get_time inp + post_time inp + 5;
                       trace := trace s
                         ++ [HttpGet twitter_user_id rapidapi_key;
                             HttpPost target_chat_id
                               (tweet_message (ist_time inp) twitter_user_id
                                  (JStr tweet_id) tweet_text)]
                         ++ post_log inp ++ [Sleep 5] |}).
  { apply poll_iteration_notify; [done| |done]. by rewrite Hne, Hnew. }
  assert (H2 : s2 = quiet_iteration twitter_user_id rapidapi_key inp' s1).
  { apply (poll_iteration_seen _ _ _ _ inp' s1 (JStr tweet_id) tweet_text);
      [done|].
    rewrite H1. unfold is_new. simpl.
    rewrite bool_decide_eq_true_2 by done. simpl.
    apply andb_false_r. }
  split_and!; [by rewrite H1|by rewrite H1|done|].
  rewrite H2. unfold quiet_iteration. simpl. rewrite posts_app. simpl.
  by rewrite app_nil_r.
Qed.

Lemma fetches_poll_undelivered tweet_id tweet_text :
  fetches (poll_undelivered tweet_id tweet_text) (JStr tweet_id) tweet_text.
Proof. eexists. split_and!; reflexivity. Qed.
End history.

(** ** Instances

    Sample runs on ASCII text, stated with the tables that know nothing
    beyond ASCII. *)

Section instances.
#[local] Existing Instance ascii_tables.

Lemma announcements_follow_changes_witness :
  announced
    (trace (monitor_tweets "nasa" "k" 7 None [] 0
              [poll_of "1901" "new"; poll_of "1900" "old";
               poll_of "1901" "new"]).2)
  = [JStr "1901"; JStr "1900"; JStr "1901"].
Proof.
  destruct (announcements_follow_changes "nasa" "k" 7 [] 0
              [poll_of "1901" "new"; poll_of "1900" "old"; poll_of "1901" "new"]
              [("1901" : pystr, "new" : pystr); ("1900" : pystr, "old" : pystr);
               ("1901" : pystr, "new" : pystr)])
    as [-> _].
  - repeat constructor; apply fetches_poll_of.
  - repeat constructor; done.
  - reflexivity.
Defined.

Lemma registry_invariant_witness :
  reachable (receive_stop 1 "esa" ReplySent second_start.2).2
  ∧ events_allocated (receive_stop 1 "esa" ReplySent second_start.2).2
  ∧ ∀ key ev,
      monitor_flags (receive_stop 1 "esa" ReplySent second_start.2).2 !! key
      = Some ev →
      ev ∉ signalled (receive_stop 1 "esa" ReplySent second_start.2).2.
Proof.
  assert (Hreach : reachable (receive_stop 1 "esa" ReplySent second_start.2).2).
  { unfold reachable.
    eapply rtc_l;
      [apply (step_receive_keywords "k" 1 "launch, orbit" ReplySent nasa_data)|].
    eapply rtc_l;
      [apply (step_receive_keywords "k" 1 "none" ReplySent nasa_data)|].
    eapply rtc_l; [apply (step_receive_stop 1 "esa" ReplySent)|].
    apply rtc_refl. }
  split; [exact Hreach|].
  by destruct (registry_invariant _ Hreach) as (? & ? & _).
Defined.

Lemma orphan_never_stopped_witness :
  (0 < next_event second_start.2)%nat
  ∧ (0%nat ∉ signalled second_start.2)
  ∧ (∀ key, monitor_flags second_start.2 !! key ≠ Some 0%nat)
  ∧ (0%nat ∉ signalled
               (receive_stop 1 "all" ReplySent
                  (receive_stop 1 "nasa" ReplySent second_start.2).2).2).
Proof.
  assert (Hlt : (0 < next_event second_start.2)%nat) by (vm_compute; lia).
  assert (Hunset : 0%nat ∉ signalled second_start.2).
  { change (signalled second_start.2) with (∅ : gset nat).
    apply not_elem_of_empty. }
  assert (Hout : ∀ key, monitor_flags second_start.2 !! key ≠ Some 0%nat).
  { intros key.
    change (monitor_flags second_start.2)
      with (<[(1, of_string "nasa") := 1%nat]>
              (<[(1, of_string "nasa") := 0%nat]> (∅ : gmap (Z * pystr) nat))).
    rewrite insert_insert_eq, lookup_insert. case_decide; [done|].
    by rewrite lookup_empty. }
  split_and!; [exact Hlt|exact Hunset|exact Hout|].
  apply (orphan_never_stopped 0%nat second_start.2
           (receive_stop 1 "all" ReplySent
              (receive_stop 1 "nasa" ReplySent second_start.2).2).2
           Hlt Hunset Hout).
  eapply rtc_l; [apply (step_receive_stop 1 "nasa" ReplySent)|].
  eapply rtc_l; [apply (step_receive_stop 1 "all" ReplySent)|].
  apply rtc_refl.
Defined.

Lemma receive_stop_other_chats_witness :
  monitor_flags (receive_stop 1 "all" ReplySent three_monitors).2
    !! (2, of_string "esa")
  = Some 1%nat.
Proof.
  destruct (receive_stop_other_chats 1 "all" ReplySent three_monitors
              (2, of_string "esa"))
    as [-> _]; [done|].
  vm_compute. reflexivity.
Defined.

Lemma start_then_stop_witness :
  lower (strip " nasa ") ≠ "all"
  ∧ monitor_flags
      (receive_stop 7 " nasa " ReplySent
         (receive_keywords "k" 7 "launch" ReplySent
            (receive_twitter_id 7 " nasa " ReplySent nasa_data two_monitors).1.2
            (receive_twitter_id 7 " nasa " ReplySent nasa_data two_monitors).2).2).2
    = delete (7, of_string "nasa") (monitor_flags two_monitors).
Proof.
  assert (Hall : lower (strip " nasa ") ≠ "all") by (vm_compute; discriminate).
  split; [exact Hall|].
  pose proof (start_then_stop "k" 7 " nasa " "launch" ReplySent ReplySent
                ReplySent nasa_data two_monitors Hall) as H.
  simpl in H. by destruct H as (_ & _ & _ & _ & H & _).
Defined.

Lemma failed_confirmation_leaves_entry_witness :
  events_allocated initial_state
  ∧ ud_twitter_user_id nasa_data = Some (of_string "nasa")
  ∧ unconfirmed_start.1.1 = Raise (OtherError "Timed out")
  ∧ monitor_flags unconfirmed_start.2 !! (1, of_string "nasa") = Some 0%nat
  ∧ threads unconfirmed_start.2 = [].
Proof.
  split; [apply events_allocated_initial|]. split; [reflexivity|].
  destruct (failed_confirmation_leaves_entry "k" 1 "none"
              (OtherError "Timed out") nasa_data initial_state "nasa"
              events_allocated_initial eq_refl)
    as (ud' & st' & Hrun & Hflag & Hthr & _).
  unfold unconfirmed_start. rewrite Hrun. simpl.
  split; [reflexivity|]. split; [exact Hflag|exact Hthr].
Defined.

Lemma history_grows_witness :
  rtc handler_step two_monitors
    (receive_keywords "k" 1 "none" ReplySent nasa_data
       (receive_stop 2 "esa" ReplySent two_monitors).2).2
  ∧ signalled two_monitors
    ⊆ signalled (receive_keywords "k" 1 "none" ReplySent nasa_data
                   (receive_stop 2 "esa" ReplySent two_monitors).2).2.
Proof.
  assert (Hsteps : rtc handler_step two_monitors
                     (receive_keywords "k" 1 "none" ReplySent nasa_data
                        (receive_stop 2 "esa" ReplySent two_monitors).2).2).
  { eapply rtc_l; [apply (step_receive_stop 2 "esa" ReplySent)|].
    eapply rtc_l;
      [apply (step_receive_keywords "k" 1 "none" ReplySent nasa_data)|].
    apply rtc_refl. }
  split; [exact Hsteps|]. by destruct (history_grows _ _ Hsteps) as [? _].
Defined.

Lemma failed_delivery_not_retried_witness :
  post_log (poll_undelivered "1900" "Big Launch Today") ≠ []
  ∧ posts (trace (poll_iteration "nasa" "k" 7 []
                    (poll_of "1900" "Big Launch Today")
                    (poll_iteration "nasa" "k" 7 []
                       (poll_undelivered "1900" "Big Launch Today")
                       fresh_thread)))
    = posts (trace (poll_iteration "nasa" "k" 7 []
                      (poll_undelivered "1900" "Big Launch Today")
                      fresh_thread)).
Proof.
  assert (Hlog : post_log (poll_undelivered "1900" "Big Launch Today") ≠ [])
    by done.
  split; [exact Hlog|].
  apply (failed_delivery_not_retried "nasa" "k" 7 []
           (poll_undelivered "1900" "Big Launch Today")
           (poll_of "1900" "Big Launch Today") fresh_thread
           "1900" "Big Launch Today").
  - apply fetches_poll_undelivered.
  - apply fetches_poll_of.
  - done.
  - done.
  - by left.
  - reflexivity.
  - exact Hlog.
Defined.

Lemma calls_within_poll_raising : calls_within 3 poll_raising.
Proof. unfold calls_within. simpl. lia. Qed.

Lemma run_clock_witness :
  Forall (calls_within 3) [poll_raising; poll_empty_body]
  ∧ 0 + 5 * 2 ≤ clock (poll_all "nasa" "k" 7 []
                         [poll_raising; poll_empty_body] fresh_thread)
  ∧ clock (poll_all "nasa" "k" 7 [] [poll_raising; poll_empty_body]
             fresh_thread) ≤ 0 + (3 + 5) * 2.
Proof.
  assert (Hall : Forall (calls_within 3) [poll_raising; poll_empty_body]).
  { repeat constructor; simpl; lia. }
  split; [exact Hall|].
  exact (run_clock "nasa" "k" 7 [] 3 [poll_raising; poll_empty_body]
           fresh_thread Hall).
Defined.

Lemma stop_latency_witness :
  Forall (calls_within 3) [poll_raising; poll_empty_body; poll_raising]
  ∧ clock fresh_thread < 9
  ∧ ∃ s', monitor_loop "nasa" "k" 7 (Some 9) []
            [poll_raising; poll_empty_body; poll_raising] fresh_thread
          = (Stopped, s')
          ∧ 9 ≤ clock s' < 9 + 3 + 5.
Proof.
  assert (Hall : Forall (calls_within 3)
                   [poll_raising; poll_empty_body; poll_raising]).
  { repeat constructor; simpl; lia. }
  assert (Hlt : clock fresh_thread < 9) by (simpl; lia).
  split; [exact Hall|]. split; [exact Hlt|].
  destruct (stop_latency "nasa" "k" 7 [] 3 9
              [poll_raising; poll_empty_body; poll_raising] fresh_thread
              Hall Hlt) as [Hbound Hlive].
  destruct Hlive as [s' Hs']; [simpl; lia|].
  exists s'. split; [exact Hs'|]. by apply Hbound.
Defined.

Lemma marker_invariant_witness :
  (latest_tweet_id fresh_thread = JNull
   ∨ py_truthy (latest_tweet_id fresh_thread) = true)
  ∧ (latest_tweet_id
       (monitor_loop "nasa" "k" 7 None []
          [poll_of "1900" "first"; poll_empty_body] fresh_thread).2 = JNull
     ∨ py_truthy
         (latest_tweet_id
            (monitor_loop "nasa" "k" 7 None []
               [poll_of "1900" "first"; poll_empty_body] fresh_thread).2)
       = true).
Proof.
  assert (H0 : latest_tweet_id fresh_thread = JNull
               ∨ py_truthy (latest_tweet_id fresh_thread) = true) by (by left).
  split; [exact H0|].
  by destruct (marker_invariant "nasa" "k" 7 [] None
                 [poll_of "1900" "first"; poll_empty_body] fresh_thread H0)
    as [? _].
Defined.

Lemma nothing_to_announce_witness :
  get_result poll_empty_body = GetJson (JObj [])
  ∧ py_truthy (JObj []) = false
  ∧ posts (trace (poll_iteration "nasa" "k" 7 [] poll_empty_body fresh_thread))
    = posts (trace fresh_thread).
Proof.
  split; [reflexivity|]. split; [reflexivity|].
  destruct (nothing_to_announce "nasa" "k" 7 [] poll_empty_body fresh_thread
              (JObj []) eq_refl) as (_ & H & _); [by left|exact H].
Defined.

Lemma unexpected_exception_reported_witness :
  get_result poll_raising = GetRaised (OtherError "out of memory")
  ∧ is_request_exception (OtherError "out of memory") = false
  ∧ is_set None (clock fresh_thread) = false
  ∧ posts (trace (poll_iteration "nasa" "k" 7 [] poll_raising fresh_thread))
    = [(7, MonitorError "nasa" (OtherError "out of memory"))].
Proof.
  split_and!; [reflexivity|reflexivity|reflexivity|].
  by destruct (unexpected_exception_reported "nasa" "k" 7 [] None poll_raising
                 [] fresh_thread (OtherError "out of memory")
                 eq_refl eq_refl eq_refl) as (_ & H & _).
Defined.

Lemma non_string_text_witness :
  as_str "startswith" (JNum 5)
  = Raise (AttributeError "'int' object has no attribute 'startswith'")
  ∧ latest_tweet_id (poll_iteration "nasa" "k" 7 [] poll_number_text
                       fresh_thread) = JStr "1900"
  ∧ announced (trace (poll_iteration "nasa" "k" 7 [] poll_number_text
                        fresh_thread)) = [].
Proof.
  split; [reflexivity|].
  destruct (non_string_text "nasa" "k" 7 [] poll_number_text fresh_thread
              (timeline_with (JStr "1900") (JNum 5)) (JNum 5) (JStr "1900")
              (AttributeError "'int' object has no attribute 'startswith'")
              eq_refl eq_refl eq_refl eq_refl eq_refl eq_refl)
    as (_ & Hann & Hlatest).
  split; [exact Hlatest|exact Hann].
Defined.

Lemma parse_keywords_clean_witness :
  of_string "launch" ∈ parse_keywords " launch , ,Orbit"
  ∧ strip "launch" = of_string "launch"
  ∧ contains [ord ","] "launch" = false.
Proof.
  assert (Hin : of_string "launch" ∈ parse_keywords " launch , ,Orbit").
  { vm_compute. by left. }
  split; [exact Hin|].
  destruct (parse_keywords_clean " launch , ,Orbit") as [H _].
  by destruct (H (of_string "launch") Hin) as (_ & ? & _ & _ & ? & _).
Defined.

Lemma extraction_raises_together_witness :
  get_tweet_text (JObj [(of_string "result", JNull)])
  = Raise (TypeError "'NoneType' object is not subscriptable")
  ∧ get_tweet_id (JObj [(of_string "result", JNull)])
    = Raise (TypeError "'NoneType' object is not subscriptable").
Proof.
  assert (Htext : get_tweet_text (JObj [(of_string "result", JNull)])
                  = Raise (TypeError "'NoneType' object is not subscriptable"))
    by reflexivity.
  split; [exact Htext|].
  by apply (extraction_raises_together (JObj [(of_string "result", JNull)])).
Defined.

Lemma hashtags_wellformed_witness :
  of_string "#space" ∈ findall_hashtags "RT check this out #space #news"
  ∧ contains "#space" "RT check this out #space #news" = true.
Proof.
  assert (Hin : of_string "#space"
                ∈ findall_hashtags "RT check this out #space #news").
  { vm_compute. by left. }
  split; [exact Hin|].
  destruct (hashtags_wellformed "RT check this out #space #news") as [H _].
  by destruct (H (of_string "#space") Hin) as (w & _ & _ & _ & ?).
Defined.
End instances.
